(** * ResumeMatch client: the logic of [App]

    A shallow embedding of the pure and state-updating parts of the single
    React component [App]: the file validator [handleFileChange], the score
    heuristic [extractMatchScore], the section splitter
    [parseAnalysisResult], the submit handler [handleSubmit], the score
    banding functions and the error auto-clear effect.

    Conventions.
    - A text is a [string]; each [ascii] stands for one UTF-16 code unit
      below 256.  On such texts [toLowerCase], [trim], the regular
      expression classes and the case folding of the [i] flag are exactly
      those of ECMAScript.
    - A JavaScript number that the code only compares with integer
      constants is a [Z]; [NaN] is [None].
    - [undefined] is [None]. *)

From Stdlib Require Import String Ascii List ZArith NArith Bool Arith Lia.
From Stdlib Require Import DecimalString.
Import ListNotations.
Local Open Scope string_scope.

(** ** JavaScript strings *)

Module JS.

Definition code (a : ascii) : N := N_of_ascii a.

Definition between (lo hi : N) (a : ascii) : bool :=
  (lo <=? code a)%N && (code a <=? hi)%N.

(** WhiteSpace and LineTerminator code units below 256: TAB, LF, VT, FF,
    CR, SP and NBSP.  It is the set of [\s], of [trim] and of the prefix
    that [parseInt] skips. *)
Definition isWhiteSpace (a : ascii) : bool :=
  between 9 13 a || (code a =? 32)%N || (code a =? 160)%N.

(** LF and CR, the line terminators that [.] refuses without the [s] flag. *)
Definition isLineTerminator (a : ascii) : bool :=
  (code a =? 10)%N || (code a =? 13)%N.

Definition isDigit (a : ascii) : bool := between 48 57 a.

(** [String.prototype.toLowerCase], per code unit: A-Z and the Latin-1
    capitals (all of 0xC0-0xDE but the multiplication sign). *)
Definition lowerChar (a : ascii) : ascii :=
  if between 65 90 a || (between 192 222 a && negb (code a =? 215)%N)
  then ascii_of_N (code a + 32)
  else a.

Fixpoint toLowerCase (s : string) : string :=
  match s with
  | EmptyString => EmptyString
  | String a s' => String (lowerChar a) (toLowerCase s')
  end.

(** Canonicalize of a non-unicode, ignore-case regular expression: the upper
    case of the code unit, unless that is several units long (sharp s) or
    maps a unit above 127 into ASCII.  The result may leave the 8-bit range
    (micro sign, y with diaeresis), so it is a number. *)
Definition canonicalize (a : ascii) : N :=
  if between 97 122 a then code a - 32
  else if between 224 254 a && negb (code a =? 247)%N then code a - 32
  else if (code a =? 181)%N then 924
  else if (code a =? 255)%N then 376
  else code a.

Fixpoint startsWith (p s : string) : bool :=
  match p, s with
  | EmptyString, _ => true
  | String a p', String b s' => Ascii.eqb a b && startsWith p' s'
  | String _ _, EmptyString => false
  end.

(** [s.includes(p)] *)
Fixpoint includes (s p : string) : bool :=
  startsWith p s ||
  match s with
  | EmptyString => false
  | String _ s' => includes s' p
  end.

Fixpoint trimStart (s : string) : string :=
  match s with
  | EmptyString => EmptyString
  | String a s' => if isWhiteSpace a then trimStart s' else s
  end.

(** The text without its trailing white space: a unit is kept when it is not
    white space or when something kept follows it. *)
Fixpoint trimEnd (s : string) : string :=
  match s with
  | EmptyString => EmptyString
  | String a s' =>
      match trimEnd s' with
      | EmptyString => if isWhiteSpace a then EmptyString else String a EmptyString
      | t => String a t
      end
  end.

Definition trim (s : string) : string := trimEnd (trimStart s).

(** The first [n] code units. *)
Fixpoint take (n : nat) (s : string) : string :=
  match n, s with
  | S n', String a s' => String a (take n' s')
  | _, _ => EmptyString
  end.

(** The text without its first [n] code units. *)
Fixpoint drop (n : nat) (s : string) : string :=
  match n, s with
  | S n', String _ s' => drop n' s'
  | _, _ => s
  end.

(** *** parseInt *)

Definition digitValue (radix : Z) (a : ascii) : option Z :=
  let v :=
    if isDigit a then Some (Z.of_N (code a) - 48)%Z
    else if between 97 122 a then Some (Z.of_N (code a) - 87)%Z
    else if between 65 90 a then Some (Z.of_N (code a) - 55)%Z
    else None in
  match v with
  | Some d => if (d <? radix)%Z then Some d else None
  | None => None
  end.

(** The value of the longest prefix of digits, [None] when it is empty. *)
Fixpoint digitsPrefix (radix : Z) (acc : option Z) (s : string) : option Z :=
  match s with
  | EmptyString => acc
  | String a s' =>
      match digitValue radix a with
      | Some d =>
          digitsPrefix radix
            (Some (match acc with Some v => v * radix + d | None => d end)%Z) s'
      | None => acc
      end
  end.

Definition ToString (v : option string) : string :=
  match v with
  | Some s => s
  | None => "undefined"
  end.

(** [parseInt(v)] with no radix argument: white space is skipped, a sign is
    read, a [0x] prefix switches to base 16, and the digits that follow are
    the value; [None] is [NaN].  A value too large for a double is rounded
    by JavaScript; rounding is monotone and keeps 0 and 100, so comparing
    with them is not affected. *)
Definition parseInt (v : option string) : option Z :=
  let s := trimStart (ToString v) in
  let '(sign, s1) :=
    match s with
    | String "-" r => ((-1)%Z, r)
    | String "+" r => (1%Z, r)
    | _ => (1%Z, s)
    end in
  let '(radix, s2) :=
    match s1 with
    | String "0" (String "x" r) => (16%Z, r)
    | String "0" (String "X" r) => (16%Z, r)
    | _ => (10%Z, s1)
    end in
  match digitsPrefix radix None s2 with
  | Some v => Some (sign * v)%Z
  | None => None
  end.

End JS.

(** ** Regular expressions

    The fragment of ECMAScript patterns that the component uses.  Every
    quantifier in the source stands on a single-character atom, so the star
    constructors take a character class; [\d+] is [\d] followed by [\d*]. *)

Module RegExp.
Import JS.

Inductive cls : Type :=
| CChar (c : ascii)        (* a pattern character *)
| CDot                     (* .      *)
| CDigit                   (* \d     *)
| CSpace                   (* \s     *)
| CRange (lo hi : ascii).  (* [lo-hi] *)

Inductive re : Type :=
| Eps
| Chr (c : cls)
| Seq (r1 r2 : re)
| Alt (r1 r2 : re)         (* r1|r2   *)
| StarLazy (c : cls)       (* c*?     *)
| StarGreedy (c : cls)     (* c*      *)
| Group (r : re)           (* (r), capture group 1 *)
| Ahead (r : re)           (* (?=r)   *)
| Eos.                     (* $ without the m flag *)

Record flags : Type := { ignoreCase : bool; dotAll : bool; global : bool }.

Record regex : Type := { source : re; flag : flags }.

(** A literal run of pattern characters. *)
Fixpoint lit (s : string) : re :=
  match s with
  | EmptyString => Eps
  | String a s' => Seq (Chr (CChar a)) (lit s')
  end.

Definition plus (c : cls) : re := Seq (Chr c) (StarGreedy c).

(** The code units of the class [[lo-hi]]. *)
Definition members (lo hi : ascii) : list ascii :=
  map ascii_of_nat
    (seq (nat_of_ascii lo) (S (nat_of_ascii hi) - nat_of_ascii lo)).

(** With the [i] flag a class accepts a unit when one of its members has the
    same canonical form; for [.], [\d] and [\s] that changes nothing, no
    unit outside them folds into them. *)
Definition cls_match (f : flags) (c : cls) (a : ascii) : bool :=
  match c with
  | CChar p =>
      if ignoreCase f then (canonicalize a =? canonicalize p)%N
      else Ascii.eqb a p
  | CDot => dotAll f || negb (isLineTerminator a)
  | CDigit => isDigit a
  | CSpace => isWhiteSpace a
  | CRange lo hi =>
      if ignoreCase f
      then existsb (fun x => (canonicalize x =? canonicalize a)%N) (members lo hi)
      else between (code lo) (code hi) a
  end.

(** The matcher state: the input still to read and capture 1. *)
Definition mstate : Type := string * option string.

Definition cont : Type := string -> option string -> option mstate.

(** [c*?]: the continuation is tried first, one more unit only when it
    fails. *)
Fixpoint lazy_star (p : ascii -> bool) (s : string)
    (k : string -> option mstate) : option mstate :=
  match k s with
  | Some x => Some x
  | None =>
      match s with
      | String a s' => if p a then lazy_star p s' k else None
      | EmptyString => None
      end
  end.

(** [c*]: as many units as possible first, giving them back one by one. *)
Fixpoint greedy_star (p : ascii -> bool) (s : string)
    (k : string -> option mstate) : option mstate :=
  match s with
  | String a s' =>
      if p a then
        match greedy_star p s' k with
        | Some x => Some x
        | None => k s
        end
      else k s
  | EmptyString => k s
  end.

(** The backtracking matcher of the specification, in continuation-passing
    style: [m f r s cap k] matches [r] at the head of [s] and hands the rest
    to [k]; the first alternative that lets [k] succeed wins. *)
Fixpoint m (f : flags) (r : re) (s : string) (cap : option string) (k : cont)
    {struct r} : option mstate :=
  match r with
  | Eps => k s cap
  | Chr c =>
      match s with
      | String a s' => if cls_match f c a then k s' cap else None
      | EmptyString => None
      end
  | Seq r1 r2 => m f r1 s cap (fun s' cap' => m f r2 s' cap' k)
  | Alt r1 r2 =>
      match m f r1 s cap k with
      | Some x => Some x
      | None => m f r2 s cap k
      end
  | StarLazy c => lazy_star (cls_match f c) s (fun s' => k s' cap)
  | StarGreedy c => greedy_star (cls_match f c) s (fun s' => k s' cap)
  | Group r1 =>
      m f r1 s cap
        (fun s' _ => k s' (Some (take (String.length s - String.length s') s)))
  | Ahead r1 =>
      match m f r1 s cap (fun s' cap' => Some (s', cap')) with
      | Some (_, cap') => k s cap'
      | None => None
      end
  | Eos =>
      match s with
      | EmptyString => k s cap
      | String _ _ => None
      end
  end.

Definition accept : cont := fun s cap => Some (s, cap).

(** One successful match: where it starts, what it matched, capture 1. *)
Record found : Type :=
  { index : nat; matched : string; group1 : option string }.

(** The match that starts at the head of [s], if any. *)
Definition matchAt (rx : regex) (idx : nat) (s : string) : option found :=
  match m (flag rx) (source rx) s None accept with
  | Some (rest, cap) =>
      Some {| index := idx;
              matched := take (String.length s - String.length rest) s;
              group1 := cap |}
  | None => None
  end.

(** [RegExp.prototype.exec] from index [idx] on: the leftmost start at which
    the pattern matches, the end of input included. *)
Fixpoint execFrom (rx : regex) (idx : nat) (s : string) : option found :=
  match matchAt rx idx s with
  | Some r => Some r
  | None =>
      match s with
      | String _ s' => execFrom rx (S idx) s'
      | EmptyString => None
      end
  end.

Definition exec (rx : regex) (s : string) : option found := execFrom rx 0 s.

(** All the matches of a global pattern, left to right.  After a match the
    search resumes at its end, one unit further when it was empty; [skip]
    counts the units of the last match still to pass over. *)
Fixpoint matchAll (rx : regex) (skip : nat) (s : string) : list string :=
  match skip with
  | S n =>
      match s with
      | String _ s' => matchAll rx n s'
      | EmptyString => []
      end
  | O =>
      match matchAt rx 0 s with
      | Some r =>
          matched r ::
          match s with
          | String _ s' => matchAll rx (String.length (matched r) - 1) s'
          | EmptyString => []
          end
      | None =>
          match s with
          | String _ s' => matchAll rx 0 s'
          | EmptyString => []
          end
      end
  end.

(** [s.match(rx)]: [null] is [None].  Without the [g] flag the array holds
    the matched text and capture 1; with it, the matched text of every
    match and no capture. *)
Definition js_match (s : string) (rx : regex) : option (list (option string)) :=
  if global (flag rx) then
    match matchAll rx 0 s with
    | [] => None
    | l => Some (map Some l)
    end
  else
    match exec rx s with
    | Some r => Some [Some (matched r); group1 r]
    | None => None
    end.

(** [arr[i]], [undefined] past the end. *)
Definition at_index (arr : list (option string)) (i : nat) : option string :=
  match nth_error arr i with
  | Some v => v
  | None => None
  end.

End RegExp.

(** ** The component *)

Import JS RegExp.

Definition fl_i : flags := {| ignoreCase := true; dotAll := false; global := false |}.
Definition fl_g : flags := {| ignoreCase := false; dotAll := false; global := true |}.
Definition fl_is : flags := {| ignoreCase := true; dotAll := true; global := false |}.

(** [/Match Percentage:.*?(\d+)%/i] *)
Definition pat_match_percentage : regex :=
  {| source := Seq (lit "Match Percentage:")
                 (Seq (StarLazy CDot) (Seq (Group (plus CDigit)) (lit "%")));
     flag := fl_i |}.

(** [/(\d+)%.*?match/i] *)
Definition pat_percent_match : regex :=
  {| source := Seq (Group (plus CDigit))
                 (Seq (lit "%") (Seq (StarLazy CDot) (lit "match")));
     flag := fl_i |}.

(** [/score:.*?(\d+)%/i] *)
Definition pat_score : regex :=
  {| source := Seq (lit "score:")
                 (Seq (StarLazy CDot) (Seq (Group (plus CDigit)) (lit "%")));
     flag := fl_i |}.

(** [/(\d+)\s*%/g] *)
Definition pat_standalone : regex :=
  {| source := Seq (Group (plus CDigit)) (Seq (StarGreedy CSpace) (lit "%"));
     flag := fl_g |}.

Definition patterns : list regex :=
  [pat_match_percentage; pat_percent_match; pat_score; pat_standalone].

(** [score >= 0 && score <= 100]; both comparisons are false on [NaN]. *)
Definition inRange (score : option Z) : bool :=
  match score with
  | Some v => (0 <=? v)%Z && (v <=? 100)%Z
  | None => false
  end.

(** The body of the [for] loop for one pattern: the score it returns, or
    [None] when the loop goes on. *)
Definition tryPattern (analysisText : string) (pattern : regex) : option Z :=
  match js_match analysisText pattern with
  | Some mt =>
      let score := parseInt (at_index mt 1) in
      if inRange score then score else None
  | None => None
  end.

(** The [for] loop over the patterns, left to right. *)
Fixpoint tryPatterns (analysisText : string) (ps : list regex) : option Z :=
  match ps with
  | [] => None
  | pattern :: ps' =>
      match tryPattern analysisText pattern with
      | Some score => Some score
      | None => tryPatterns analysisText ps'
      end
  end.

(** The estimate from the content, after the loop. *)
Definition keywordScore (analysisText : string) : Z :=
  if includes (toLowerCase analysisText) "excellent"
     || includes (toLowerCase analysisText) "strong match"
  then 85
  else if includes (toLowerCase analysisText) "good"
          || includes (toLowerCase analysisText) "suitable"
  then 75
  else if includes (toLowerCase analysisText) "fair"
          || includes (toLowerCase analysisText) "potential"
  then 65
  else 60.

Definition extractMatchScore (analysisText : string) : Z :=
  match tryPatterns analysisText patterns with
  | Some score => score
  | None => keywordScore analysisText
  end.

(** *** Sections of the analysis *)

Definition seqs (rs : list re) : re := fold_right Seq Eps rs.

(** [/<h[2-4]>.*?WORD.*?<\/h[2-4]>(.*?)(?=<h[2-4]|$)/is] *)
Definition pat_section (word : string) : regex :=
  {| source :=
       seqs [ lit "<h"; Chr (CRange "2" "4"); lit ">";
              StarLazy CDot; lit word; StarLazy CDot;
              lit "</h"; Chr (CRange "2" "4"); lit ">";
              Group (StarLazy CDot);
              Ahead (Alt (Seq (lit "<h") (Chr (CRange "2" "4"))) Eos) ];
     flag := fl_is |}.

(** A field holds a string, or [undefined] had a capture been absent. *)
Record Sections : Type :=
  { skills : option string;
    experience : option string;
    recommendations : option string;
    strengths : option string;
    weaknesses : option string;
    overall : string }.

(** [const mt = analysisText.match(rx); if (mt) sections.f = mt[1];] on a
    field that starts as the empty string. *)
Definition sectionOf (analysisText : string) (rx : regex) : option string :=
  match js_match analysisText rx with
  | Some mt => at_index mt 1
  | None => Some ""
  end.

Definition parseAnalysisResult (analysisText : string) : Sections :=
  {| skills := sectionOf analysisText (pat_section "skills");
     experience := sectionOf analysisText (pat_section "experience");
     recommendations := sectionOf analysisText (pat_section "recommendation");
     strengths := Some "";
     weaknesses := Some "";
     overall := analysisText |}.

(** *** Component state *)

Record File : Type := { name : string; type : string; size : N }.

(** The three values of [apiStatus]: "checking", "connected" and "error". *)
Inductive ApiStatus : Type := checking | connected | api_error.

Record Results : Type :=
  { matchScore : Z;
    analysis : Sections;
    rawAnalysis : string;
    analyzedAt : option string }.

Record State : Type :=
  { file : option File;
    jobDescription : string;
    isLoading : bool;
    results : option Results;
    error : option string;
    apiStatus : ApiStatus;
    dragActive : bool }.

Definition initialState : State :=
  {| file := None; jobDescription := ""; isLoading := false; results := None;
     error := None; apiStatus := checking; dragActive := false |}.

Definition setFile (v : option File) (st : State) : State :=
  {| file := v; jobDescription := jobDescription st; isLoading := isLoading st;
     results := results st; error := error st; apiStatus := apiStatus st;
     dragActive := dragActive st |}.

Definition setIsLoading (v : bool) (st : State) : State :=
  {| file := file st; jobDescription := jobDescription st; isLoading := v;
     results := results st; error := error st; apiStatus := apiStatus st;
     dragActive := dragActive st |}.

Definition setResults (v : option Results) (st : State) : State :=
  {| file := file st; jobDescription := jobDescription st;
     isLoading := isLoading st; results := v; error := error st;
     apiStatus := apiStatus st; dragActive := dragActive st |}.

Definition setError (v : option string) (st : State) : State :=
  {| file := file st; jobDescription := jobDescription st;
     isLoading := isLoading st; results := results st; error := v;
     apiStatus := apiStatus st; dragActive := dragActive st |}.

Definition setApiStatus (v : ApiStatus) (st : State) : State :=
  {| file := file st; jobDescription := jobDescription st;
     isLoading := isLoading st; results := results st; error := error st;
     apiStatus := v; dragActive := dragActive st |}.

(** *** handleFileChange *)

Definition handleFileChange (f : File) (st : State) : State :=
  if negb (String.eqb (type f) "application/pdf") then
    setError (Some "Only PDF files are allowed") st
  else if (5 * 1024 * 1024 <? size f)%N then
    setError (Some "File size exceeds 5MB limit") st
  else
    setError None (setFile (Some f) st).

(** *** handleSubmit *)

Definition API_BASE_URL : string := "https://skillsync-ai-server.onrender.com".

(** The JSON body of the analyze response; an absent key is [None], an
    absent [success] is [false]. *)
Record Data : Type :=
  { success : bool;
    d_error : option string;
    result : option string;
    d_matchScore : option Z;
    d_analyzedAt : option string }.

(** What the network does with the request: [fetch] or [response.json()]
    rejects with an error of some message, or a response arrives. *)
Inductive FetchOutcome : Type :=
| Rejects (message : string)
| Responds (ok : bool) (status : N) (data : Data).

Inductive Effect : Type :=
| Fetch (url : string) (resume : File) (description : string)
| ScrollToResults (delay : N)
| HealthFetch (url : string).
(* the POST of handleSubmit, its setTimeout, the GET of checkApiHealth *)

(** [a || b] on strings: the empty string and [undefined] are falsy. *)
Definition orString (a : option string) (b : string) : string :=
  match a with
  | Some "" | None => b
  | Some s => s
  end.

(** [a || b] on numbers: 0 and [undefined] are falsy. *)
Definition orNumber (a : option Z) (b : Z) : Z :=
  match a with
  | Some 0%Z | None => b
  | Some v => v
  end.

(** The message of the TypeError raised by [undefined.match(...)], in V8's
    words. *)
Definition typeErrorMessage : string :=
  "Cannot read properties of undefined (reading 'match')".

(** The [try] block after the request was sent: the message of the error it
    throws, or the results it stores.  [extractMatchScore] is called only
    when the left operand of [||] is falsy; both helpers call [.match] on
    their argument, which throws on [undefined]. *)
Definition tryBody (net : FetchOutcome) : string + Results :=
  match net with
  | Rejects message => inl message
  | Responds ok status data =>
      if negb ok then
        inl (orString (d_error data)
               ("HTTP error! status: " ++ NilEmpty.string_of_uint (N.to_uint status)))
      else if negb (success data) then
        inl (orString (d_error data) "Analysis failed")
      else
        match result data with
        | None => inl typeErrorMessage
        | Some text =>
            let matchScore := orNumber (d_matchScore data) (extractMatchScore text) in
            let parsedAnalysis := parseAnalysisResult text in
            inr {| matchScore := matchScore;
                   analysis := parsedAnalysis;
                   rawAnalysis := text;
                   analyzedAt := d_analyzedAt data |}
        end
  end.

(** The [catch] block. *)
Definition catchBlock (message : string) (st : State) : State :=
  if includes message "Failed to fetch" then
    setError
      (Some "Cannot connect to the backend server. Please ensure the server is running")
      (setApiStatus api_error st)
  else
    setError (Some message) st.

(** The state when the handler has run to its end, and what it asked of the
    outside world on the way. *)
Definition handleSubmit (net : FetchOutcome) (st : State) : State * list Effect :=
  match file st with
  | None => (setError (Some "Please upload your resume") st, [])
  | Some f =>
      if String.eqb (trim (jobDescription st)) "" then
        (setError (Some "Please enter the job description") st, [])
      else if (String.length (trim (jobDescription st)) <? 20)%nat then
        (setError (Some "Job description must be at least 20 characters long") st, [])
      else
        match apiStatus st with
        | api_error =>
            (setError
               (Some "Backend server is not available. Please ensure the server is running")
               st, [])
        | _ =>
            let st1 := setResults None (setError None (setIsLoading true st)) in
            let request :=
              Fetch (API_BASE_URL ++ "/api/analyze") f (jobDescription st) in
            match tryBody net with
            | inr r =>
                (setIsLoading false (setResults (Some r) st1),
                 [request; ScrollToResults 100])
            | inl message =>
                (setIsLoading false (catchBlock message st1), [request])
            end
        end
  end.

(** *** Score bands *)

Definition getScoreColor (score : Z) : string :=
  if (90 <=? score)%Z then "from-green-500 to-emerald-600 border-green-400/50"
  else if (80 <=? score)%Z then "from-blue-500 to-cyan-600 border-blue-400/50"
  else if (70 <=? score)%Z then "from-yellow-500 to-orange-600 border-yellow-400/50"
  else "from-red-500 to-red-600 border-red-400/50".

(** The icon literals hold units above 255; they are lists of UTF-16 code
    units, as the source file spells them. *)
Definition getScoreIcon (score : Z) : list N :=
  if (90 <=? score)%Z then [0xF0; 0x178; 0x17D; 0xAF]%N
  else if (80 <=? score)%Z then [0xF0; 0x178; 0x2018]%N
  else if (70 <=? score)%Z then [0xF0; 0x178; 0x2018; 0x152]%N
  else [0xE2; 0x161; 0xA0; 0xEF; 0xB8]%N.

Definition getScoreDescription (score : Z) : string :=
  if (90 <=? score)%Z then "Excellent Match"
  else if (80 <=? score)%Z then "Strong Match"
  else if (70 <=? score)%Z then "Good Match"
  else if (60 <=? score)%Z then "Fair Match"
  else "Needs Improvement".

(** ** The error banner and its timers

    [error] is shown in a banner.  Three pieces of code touch it: the
    handlers call [setError]; the effect [useEffect(..., [error])] starts an
    8000 ms timer when [error] is truthy and returns the cleanup that clears
    it; the share button sets a notice and starts a 2000 ms timer of its
    own.  Time is a count of milliseconds. *)

Module Banner.

Inductive Owner : Type := ByEffect | ByShare.

(** A pending [setTimeout(() => setError(null), delay)] started at [set_at]. *)
Record Timer : Type := { owner : Owner; set_at : N; delay : N }.

Definition due (t : Timer) : N := (set_at t + delay t)%N.

Definition isEffect (t : Timer) : bool :=
  match owner t with ByEffect => true | ByShare => false end.

(** The clock, the [error] state as the banner shows it, and the timers
    that have been started and have neither fired nor been cleared. *)
Record UI : Type := { now : N; shown : option string; pending : list Timer }.

Definition initial : UI := {| now := 0; shown := None; pending := [] |}.

(** [if (error)] *)
Definition truthy (v : option string) : bool :=
  match v with
  | Some "" | None => false
  | Some _ => true
  end.

(** [Object.is] on the values [error] takes. *)
Definition sameValue (a b : option string) : bool :=
  match a, b with
  | Some x, Some y => String.eqb x y
  | None, None => true
  | _, _ => false
  end.

(** One run of the effect after [error] changed: the cleanup of the previous
    run clears the timer it had started, then the body starts a new one when
    the error is truthy. *)
Definition errorEffect (u : UI) : UI :=
  {| now := now u;
     shown := shown u;
     pending :=
       filter (fun t => negb (isEffect t)) (pending u)
       ++ (if truthy (shown u)
           then [{| owner := ByEffect; set_at := now u; delay := 8000 |}]
           else []) |}.

(** [setError(v)]: React keeps the state and skips the render, and with it
    the effect, when the value is the one already held. *)
Definition setError (v : option string) (u : UI) : UI :=
  if sameValue v (shown u) then u
  else errorEffect {| now := now u; shown := v; pending := pending u |}.

(** [setTimeout(() => setError(null), 2000)] of the share button. *)
Definition shareTimeout (u : UI) : UI :=
  {| now := now u;
     shown := shown u;
     pending := pending u ++ [{| owner := ByShare; set_at := now u; delay := 2000 |}] |}.

(** The [then] callback of the share button. *)
Definition shareCopied (u : UI) : UI :=
  setError (Some "Analysis link copied to clipboard!") (shareTimeout u).

(** The first pending timer that is due, and the others. *)
Fixpoint takeDue (t0 : N) (ts : list Timer) : option (Timer * list Timer) :=
  match ts with
  | [] => None
  | t :: ts' =>
      if (due t <=? t0)%N then Some (t, ts')
      else
        match takeDue t0 ts' with
        | Some (x, rest) => Some (x, t :: rest)
        | None => None
        end
  end.

Inductive Event : Type :=
| SetError (v : option string)   (* a handler calls setError(v) *)
| ShareCopied                    (* the clipboard write of the share button resolved *)
| Wait (d : N)                   (* d ms pass and no timer comes due before they end *)
| Fire.                          (* a timer that is due runs its callback *)

(** One event; [None] when it cannot happen in this state: time does not
    pass beyond a pending timer, and only a due timer fires. *)
Definition step (e : Event) (u : UI) : option UI :=
  match e with
  | SetError v => Some (setError v u)
  | ShareCopied => Some (shareCopied u)
  | Wait d =>
      if forallb (fun t => (now u + d <=? due t)%N) (pending u)
      then Some {| now := (now u + d)%N; shown := shown u; pending := pending u |}
      else None
  | Fire =>
      match takeDue (now u) (pending u) with
      | Some (_, rest) =>
          Some (setError None {| now := now u; shown := shown u; pending := rest |})
      | None => None
      end
  end.

Fixpoint run (es : list Event) (u : UI) : option UI :=
  match es with
  | [] => Some u
  | e :: es' =>
      match step e u with
      | Some u' => run es' u'
      | None => None
      end
  end.

(** The timers that the effect started and has not cleared. *)
Definition effectTimers (u : UI) : list Timer := filter isEffect (pending u).

(** The timers that share buttons started and that have not fired. *)
Definition shareTimers (u : UI) : list Timer :=
  filter (fun t => negb (isEffect t)) (pending u).

(** What holds of the timers in every state the component can reach. *)
Definition timers_ok (u : UI) : Prop :=
  (forall t, In t (pending u) -> (set_at t <= now u <= due t)%N)
  /\ (forall t, In t (pending u) -> owner t = ByShare -> delay t = 2000%N)
  /\ (if truthy (shown u)
      then exists t0, effectTimers u
                      = [{| owner := ByEffect; set_at := t0; delay := 8000 |}]
      else effectTimers u = []).

End Banner.

(** ** Definitions for the statements

    [spec_violation], [spec_band], [firstCapture] and [hasHeadingWith]
    follow the words of the specification; the others name what the
    properties below speak of. *)

(** The banding as the specification words it: 90 and above, 80 and above,
    70 and above, the rest. *)
Inductive Band : Type := Band90 | Band80 | Band70 | BandRest.

Definition spec_band (score : Z) : Band :=
  if (90 <=? score)%Z then Band90
  else if (80 <=? score)%Z then Band80
  else if (70 <=? score)%Z then Band70
  else BandRest.

(** The captured integer of the first match of a pattern, as the
    specification reads every one of the four: [exec] finds the leftmost
    match and capture 1 is parsed. *)
Definition firstCapture (analysisText : string) (pattern : regex) : option Z :=
  match exec pattern analysisText with
  | Some r => parseInt (group1 r)
  | None => None
  end.

(** The five-way banding of the label function. *)
Inductive Band5 : Type := L90 | L80 | L70 | L60 | LRest.

Definition label_band (score : Z) : Band5 :=
  if (90 <=? score)%Z then L90
  else if (80 <=? score)%Z then L80
  else if (70 <=? score)%Z then L70
  else if (60 <=? score)%Z then L60
  else LRest.

(** The preconditions of [submit] in the order the specification lists
    them, each with its message: file present, description non-empty after
    trimming, trimmed length at least 20, status other than error. *)
Definition spec_violation (st : State) : option string :=
  match file st with
  | None => Some "Please upload your resume"
  | Some _ =>
      if (String.length (trim (jobDescription st)) =? 0)%nat then
        Some "Please enter the job description"
      else if (String.length (trim (jobDescription st)) <? 20)%nat then
        Some "Job description must be at least 20 characters long"
      else
        match apiStatus st with
        | api_error =>
            Some "Backend server is not available. Please ensure the server is running"
        | _ => None
        end
  end.

(** An opening tag of a heading of level 2 to 4 starts the text, in either
    case of the letter. *)
Definition opensHeading (s : string) : bool :=
  startsWith "<h2" (toLowerCase s)
  || startsWith "<h3" (toLowerCase s)
  || startsWith "<h4" (toLowerCase s).

Definition isLevel (d : ascii) : bool := between 50 52 d.

(** *** A section, read off the text

    What [parseAnalysisResult] puts in a field, said with searches in the
    text and no pattern. *)

(** The first place of [s], from its head on, at which [test] gives
    something. *)
Fixpoint findFrom {A : Type} (test : string -> option A) (s : string) : option A :=
  match test s with
  | Some x => Some x
  | None =>
      match s with
      | String _ s' => findFrom test s'
      | EmptyString => None
      end
  end.

(** [tag], a digit from 2 to 4 and [>] stand at the head of [s], in either
    letter case: the text after them.  With [tag] "<h" this is an opening
    tag, with "</h" a closing one. *)
Definition levelTagAt (tag : string) (s : string) : option string :=
  if startsWith tag (toLowerCase s) then
    match drop (String.length tag) s with
    | String d r =>
        if isLevel d && startsWith ">" (toLowerCase r) then Some (drop 1 r)
        else None
    | EmptyString => None
    end
  else None.

(** The text up to the first place where a heading of level 2 to 4 opens,
    all of it when none does. *)
Fixpoint upToHeading (s : string) : string :=
  match s with
  | EmptyString => EmptyString
  | String a s' =>
      if opensHeading s then EmptyString else String a (upToHeading s')
  end.

(** A closing tag stands here: the text after it up to the next heading. *)
Definition spec_afterClose (u : string) : option string :=
  option_map upToHeading (levelTagAt "</h" u).

(** The word stands here, in any letter case, and a closing tag follows
    somewhere: what follows the first such tag. *)
Definition spec_afterWord (word t : string) : option string :=
  if startsWith word (toLowerCase t)
  then findFrom spec_afterClose (drop (String.length word) t)
  else None.

(** An opening tag stands here and the word, then a closing tag, follow
    somewhere: what follows from the first such word. *)
Definition spec_afterOpen (word s : string) : option string :=
  match levelTagAt "<h" s with
  | Some s3 => findFrom (spec_afterWord word) s3
  | None => None
  end.

(** The field for [word]: what follows from the first such opening tag, the
    empty string when there is none. *)
Definition spec_section (word text : string) : string :=
  match findFrom (spec_afterOpen word) text with
  | Some body => body
  | None => EmptyString
  end.

(** *** Headings, as the specification speaks of them *)

(** The text before the first closing tag of level 2 to 4. *)
Fixpoint upToClose (s : string) : option string :=
  match levelTagAt "</h" s with
  | Some _ => Some EmptyString
  | None =>
      match s with
      | String a s' => option_map (String a) (upToClose s')
      | EmptyString => None
      end
  end.

(** The text of the heading that opens at the head of [s]: what stands
    between an opening tag and the first closing tag after it, whatever
    their levels. *)
Definition headingTextAt (s : string) : option string :=
  match levelTagAt "<h" s with
  | Some s1 => upToClose s1
  | None => None
  end.

(** Some heading of the text holds [word], in any letter case. *)
Fixpoint hasHeadingWith (word text : string) : bool :=
  match headingTextAt text with
  | Some body => includes (toLowerCase body) word
  | None => false
  end
  || match text with
     | String _ t' => hasHeadingWith word t'
     | EmptyString => false
     end.

(** *** The parts of the section pattern *)

(** The lookahead that closes the section pattern, [(?=<h[2-4]|$)]. *)
Definition nextHeading : re := Alt (Seq (lit "<h") (Chr (CRange "2" "4"))) Eos.

(** [(.*?)(?=<h[2-4]|$)] *)
Definition bodyRe : re :=
  Seq (Group (StarLazy CDot)) (Seq (Ahead nextHeading) Eps).

(** [tag], then [[2-4]>], then [r]. *)
Definition levelTagRe (tag : string) (r : re) : re :=
  Seq (lit tag) (Seq (Chr (CRange "2" "4")) (Seq (lit ">") r)).

(** [<\/h[2-4]>(.*?)(?=<h[2-4]|$)] *)
Definition closeRe : re := levelTagRe "</h" bodyRe.

(** [WORD.*?<\/h[2-4]>(.*?)(?=<h[2-4]|$)] *)
Definition wordRe (word : string) : re :=
  Seq (lit word) (Seq (StarLazy CDot) closeRe).

(** The whole pattern, [source (pat_section word)]. *)
Definition openRe (word : string) : re :=
  levelTagRe "<h" (Seq (StarLazy CDot) (wordRe word)).

(** Every match of [r] reads the pattern character [c]. *)
Fixpoint needs (c : ascii) (r : re) : bool :=
  match r with
  | Chr (CChar p) => Ascii.eqb p c
  | Seq r1 r2 => needs c r1 || needs c r2
  | Alt r1 r2 => needs c r1 && needs c r2
  | Group r1 => needs c r1
  | _ => false
  end.

(** Every code unit. *)
Definition all_ascii : list ascii := map ascii_of_nat (seq 0 256).

(** A pattern character that lowercasing leaves alone and that only itself
    and its capital fold to: ASCII, and no capital. *)
Definition stable (c : ascii) : bool :=
  (code c <? 128)%N && negb (between 65 90 c).

(** A state that meets every precondition, and a successful response. *)
Definition sampleState : State :=
  {| file := Some {| name := "cv.pdf"; type := "application/pdf"; size := 2048 |};
     jobDescription := "Senior engineer with ten years of experience";
     isLoading := false; results := None; error := None;
     apiStatus := connected; dragActive := false |}.

Definition successResponse (score : option Z) (text : string) : FetchOutcome :=
  Responds true 200
    {| success := true; d_error := None; result := Some text;
       d_matchScore := score; d_analyzedAt := None |}.

(** ** The other handlers of the component *)

Definition setJobDescription (v : string) (st : State) : State :=
  {| file := file st; jobDescription := v; isLoading := isLoading st;
     results := results st; error := error st; apiStatus := apiStatus st;
     dragActive := dragActive st |}.

Definition setDragActive (v : bool) (st : State) : State :=
  {| file := file st; jobDescription := jobDescription st;
     isLoading := isLoading st; results := results st; error := error st;
     apiStatus := apiStatus st; dragActive := v |}.

(** What the request [fetch(`${API_BASE_URL}/api/health`)] of
    [checkApiHealth] does: it rejects, or a response arrives with its [ok]
    flag.  The request itself is recorded by [appStep]. *)
Inductive HealthOutcome : Type :=
| HealthRejects
| HealthResponds (ok : bool).

Definition checkApiHealth (o : HealthOutcome) (st : State) : State :=
  match o with
  | HealthResponds true => setApiStatus connected st
  | HealthResponds false => setApiStatus api_error st
  | HealthRejects => setApiStatus api_error st
  end.

(** [handleDrag(e)] on [e.type]. *)
Definition handleDrag (type : string) (st : State) : State :=
  if String.eqb type "dragenter" || String.eqb type "dragover" then
    setDragActive true st
  else if String.eqb type "dragleave" then
    setDragActive false st
  else st.

(** [handleDrop(e)] on [e.dataTransfer.files]; an absent list is the empty
    one. *)
Definition handleDrop (files : list File) (st : State) : State :=
  match files with
  | f :: _ => handleFileChange f (setDragActive false st)
  | [] => setDragActive false st
  end.

(** [onChange] of the file input:
    [e.target.files[0] && handleFileChange(e.target.files[0])]. *)
Definition onFileInputChange (files : list File) (st : State) : State :=
  match files with
  | f :: _ => handleFileChange f st
  | [] => st
  end.

(** The live hint under the text area,
    [jobDescription.length < 20 && jobDescription.length > 0]. *)
Definition showsLengthHint (st : State) : bool :=
  (String.length (jobDescription st) <? 20)%nat
  && (0 <? String.length (jobDescription st))%nat.

(** [disabled={isLoading || apiStatus === "error"}] of the submit button. *)
Definition submitDisabled (st : State) : bool :=
  isLoading st
  || match apiStatus st with api_error => true | _ => false end.

(** What can happen to the component.  Handlers run one at a time: an event
    is taken when the handler of the one before has run to its end. *)
Inductive AppEvent : Type :=
| HealthChecked (o : HealthOutcome)   (* on mount, or the Retry button *)
| Dragged (type : string)
| Dropped (files : list File)
| Browsed (files : list File)
| Typed (text : string)
| Submitted (net : FetchOutcome).

(** One event: the new state and what its handler asked of the outside
    world.  A health check is one event, from the GET that [checkApiHealth]
    sends to the status it sets when the answer is in. *)
Definition appStep (e : AppEvent) (st : State) : State * list Effect :=
  match e with
  | HealthChecked o =>
      (checkApiHealth o st, [HealthFetch (API_BASE_URL ++ "/api/health")])
  | Dragged type => (handleDrag type st, [])
  | Dropped files => (handleDrop files st, [])
  | Browsed files => (onFileInputChange files st, [])
  | Typed text => (setJobDescription text st, [])
  | Submitted net => handleSubmit net st
  end.

(** The state after the events, and everything they asked of the outside
    world, in order. *)
Fixpoint appRun (es : list AppEvent) (st : State) : State * list Effect :=
  match es with
  | [] => (st, [])
  | e :: es' =>
      let '(st1, out1) := appStep e st in
      let '(st2, out2) := appRun es' st1 in
      (st2, (out1 ++ out2)%list)
  end.

(** *** The report: tags stripped from the raw analysis *)

(** [/<[^>]*>/] at the head of [s], written with the star of the matcher:
    the text after the tag, when one starts here. *)
Definition tagAt (s : string) : option string :=
  match s with
  | String a s' =>
      if Ascii.eqb a "<" then
        match greedy_star (fun c => negb (Ascii.eqb c ">")) s'
                (fun r =>
                   match r with
                   | String b r' => if Ascii.eqb b ">" then Some (r', None) else None
                   | EmptyString => None
                   end) with
        | Some (rest, _) => Some rest
        | None => None
        end
      else None
  | EmptyString => None
  end.

(** [s.replace(/<[^>]*>/g, "")]: every match, left to right, is dropped;
    [skip] counts the units of the last match still to pass over. *)
Fixpoint stripTagsFrom (skip : nat) (s : string) : string :=
  match skip with
  | S n =>
      match s with
      | String _ s' => stripTagsFrom n s'
      | EmptyString => EmptyString
      end
  | O =>
      match s with
      | String a s' =>
          match tagAt s with
          | Some rest =>
              stripTagsFrom (String.length s - String.length rest - 1) s'
          | None => String a (stripTagsFrom 0 s')
          end
      | EmptyString => EmptyString
      end
  end.

Definition stripTags (rawAnalysis : string) : string :=
  stripTagsFrom 0 rawAnalysis.

(** ** Definitions for the statements on whole runs *)

(** A file that [handleFileChange] lets through. *)
Definition validFile (f : File) : Prop :=
  type f = "application/pdf" /\ (size f <= 5242880)%N.

(** What every handler, run to its end, leaves true. *)
Definition atRest (st : State) : Prop :=
  (forall f, file st = Some f -> validFile f)
  /\ isLoading st = false
  /\ (forall r, results st = Some r ->
        analysis r = parseAnalysisResult (rawAnalysis r)).

(** The requests that the health checks of a run send, one each. *)
Definition healthRequests (es : list AppEvent) : list Effect :=
  flat_map (fun e =>
              match e with
              | HealthChecked _ => [HealthFetch (API_BASE_URL ++ "/api/health")]
              | _ => []
              end) es.

(** No health check of the run got an ok response. *)
Definition noHealthyCheck (es : list AppEvent) : Prop :=
  forall e, In e es -> e <> HealthChecked (HealthResponds true).

(** The text after the first [>], when there is one. *)
Fixpoint afterGt (s : string) : option string :=
  match s with
  | EmptyString => None
  | String a s' => if Ascii.eqb a ">" then Some s' else afterGt s'
  end.

(** ** Definitions for the statements on letter case *)

(** A class that accepts a unit exactly when it accepts its lowercase. *)
Definition clsCaseBlind (f : flags) (c : cls) : bool :=
  forallb (fun a => Bool.eqb (cls_match f c (lowerChar a)) (cls_match f c a))
    all_ascii.

Fixpoint caseBlind (f : flags) (r : re) : bool :=
  match r with
  | Eps | Eos => true
  | Chr c | StarLazy c | StarGreedy c => clsCaseBlind f c
  | Seq r1 r2 | Alt r1 r2 => caseBlind f r1 && caseBlind f r2
  | Group r1 | Ahead r1 => caseBlind f r1
  end.

(** The part of [parseInt] after the sign: the radix prefix and the
    digits. *)
Definition parseDigits (sign : Z) (s1 : string) : option Z :=
  let '(radix, s2) :=
    match s1 with
    | String "0" (String "x" r) => (16%Z, r)
    | String "0" (String "X" r) => (16%Z, r)
    | _ => (10%Z, s1)
    end in
  match digitsPrefix radix None s2 with
  | Some v => Some (sign * v)%Z
  | None => None
  end.

(** A matcher state, lowercased. *)
Definition lowerState (x : mstate) : mstate :=
  (toLowerCase (fst x), option_map toLowerCase (snd x)).

Definition lowerFound (r : found) : found :=
  {| index := index r;
     matched := toLowerCase (matched r);
     group1 := option_map toLowerCase (group1 r) |}.

(** * Properties *)

(** ** File validation *)

(** C7: a candidate whose MIME type is not "application/pdf" is rejected
    with the validation message, and the state is the old one but for the
    error: the stored file, present or absent, is retained. *)
Theorem handleFileChange_rejects_non_pdf (f : File) (st : State) :
  type f <> "application/pdf" ->
  handleFileChange f st = setError (Some "Only PDF files are allowed") st
  /\ error (handleFileChange f st) = Some "Only PDF files are allowed"
  /\ file (handleFileChange f st) = file st.
Proof.
  intros Hty. unfold handleFileChange.
  destruct (String.eqb_spec (type f) "application/pdf") as [E | _].
  - contradiction.
  - cbn. repeat split.
Qed.

Lemma handleFileChange_rejects_non_pdf_witness :
  let f := {| name := "cv.docx"; type := "application/msword"; size := 1000 |} in
  let st := setFile (Some {| name := "old.pdf"; type := "application/pdf"; size := 7 |})
              initialState in
  file (handleFileChange f st) = file st.
Proof.
  intros f st.
  apply (handleFileChange_rejects_non_pdf f st).
  discriminate.
Defined.

(** C8: a candidate larger than 5,242,880 bytes is rejected whatever its
    MIME type: the stored file does not change and an error message is
    set. *)
Theorem handleFileChange_rejects_large (f : File) (st : State) :
  (5242880 < size f)%N ->
  file (handleFileChange f st) = file st
  /\ exists msg, handleFileChange f st = setError (Some msg) st
                /\ (msg = "Only PDF files are allowed"
                    \/ msg = "File size exceeds 5MB limit").
Proof.
  intros Hsz. unfold handleFileChange.
  destruct (negb (String.eqb (type f) "application/pdf")).
  - split; [reflexivity | eexists; split; [reflexivity | now left]].
  - replace (5 * 1024 * 1024 <? size f)%N with true
      by (symmetry; apply N.ltb_lt; exact Hsz).
    split; [reflexivity | eexists; split; [reflexivity | now right]].
Qed.

Lemma handleFileChange_rejects_large_witness :
  let f := {| name := "cv.pdf"; type := "application/pdf"; size := 5242881 |} in
  file (handleFileChange f initialState) = None.
Proof.
  intros f.
  apply (handleFileChange_rejects_large f initialState).
  reflexivity.
Defined.

(** A PDF within the limit is stored and the error cleared. *)
Lemma handleFileChange_accepts (f : File) (st : State) :
  type f = "application/pdf" -> (size f <= 5242880)%N ->
  handleFileChange f st = setError None (setFile (Some f) st).
Proof.
  intros Hty Hsz. unfold handleFileChange. rewrite Hty. cbn [negb String.eqb].
  replace (5 * 1024 * 1024 <? size f)%N with false; [reflexivity |].
  symmetry. apply N.ltb_ge. exact Hsz.
Qed.

(** ** Submission *)

Lemma eqb_empty_length (s : string) :
  String.eqb s "" = (String.length s =? 0)%nat.
Proof. destruct s; reflexivity. Qed.

(** C3: the four preconditions are checked in the listed order; the first
    one violated sets its own message, no request goes out, and loading,
    results, file and description stay as they were. *)
Theorem handleSubmit_precondition_abort
    (net : FetchOutcome) (st : State) (msg : string) :
  spec_violation st = Some msg ->
  handleSubmit net st = (setError (Some msg) st, [])
  /\ isLoading (fst (handleSubmit net st)) = isLoading st
  /\ results (fst (handleSubmit net st)) = results st
  /\ file (fst (handleSubmit net st)) = file st
  /\ jobDescription (fst (handleSubmit net st)) = jobDescription st.
Proof.
  intros Hv.
  assert (E : handleSubmit net st = (setError (Some msg) st, [])).
  { unfold spec_violation in Hv. unfold handleSubmit.
    destruct (file st) as [f |].
    - rewrite eqb_empty_length.
      destruct (String.length (trim (jobDescription st)) =? 0)%nat.
      + now inversion Hv.
      + destruct (String.length (trim (jobDescription st)) <? 20)%nat.
        * now inversion Hv.
        * destruct (apiStatus st); try discriminate. now inversion Hv.
    - now inversion Hv. }
  rewrite E. repeat split.
Qed.

Lemma handleSubmit_precondition_abort_witness :
  let st := {| file := Some {| name := "cv.pdf"; type := "application/pdf"; size := 9 |};
               jobDescription := "   too short   ";
               isLoading := false; results := None; error := None;
               apiStatus := api_error; dragActive := false |} in
  handleSubmit (Rejects "Failed to fetch") st
  = (setError (Some "Job description must be at least 20 characters long") st, []).
Proof.
  intros st.
  apply (handleSubmit_precondition_abort (Rejects "Failed to fetch") st).
  reflexivity.
Defined.

(** The four messages differ from one another. *)
Lemma precondition_messages_distinct :
  NoDup [ "Please upload your resume";
          "Please enter the job description";
          "Job description must be at least 20 characters long";
          "Backend server is not available. Please ensure the server is running" ].
Proof.
  repeat constructor; cbn; intuition discriminate.
Qed.

(** With every precondition met the handler goes on to the request. *)
Lemma handleSubmit_valid (net : FetchOutcome) (st : State) :
  spec_violation st = None ->
  exists f,
    file st = Some f
    /\ handleSubmit net st
       = let st1 := setResults None (setError None (setIsLoading true st)) in
         let request := Fetch (API_BASE_URL ++ "/api/analyze") f (jobDescription st) in
         match tryBody net with
         | inr r => (setIsLoading false (setResults (Some r) st1),
                     [request; ScrollToResults 100])
         | inl message => (setIsLoading false (catchBlock message st1), [request])
         end.
Proof.
  intros Hv. unfold spec_violation in Hv. unfold handleSubmit.
  destruct (file st) as [f |]; [| discriminate].
  rewrite eqb_empty_length.
  destruct (String.length (trim (jobDescription st)) =? 0)%nat; [discriminate |].
  destruct (String.length (trim (jobDescription st)) <? 20)%nat; [discriminate |].
  exists f. destruct (apiStatus st); try discriminate; split; reflexivity.
Qed.

(** The request carries the stored file and the description as typed, and
    the loading flag is down again at the end, whatever the outcome. *)
Lemma handleSubmit_sends (net : FetchOutcome) (st : State) :
  spec_violation st = None ->
  isLoading (fst (handleSubmit net st)) = false
  /\ exists f rest,
       file st = Some f
       /\ snd (handleSubmit net st)
          = Fetch (API_BASE_URL ++ "/api/analyze") f (jobDescription st) :: rest.
Proof.
  intros Hv. destruct (handleSubmit_valid net st Hv) as (f & Hf & ->).
  cbv zeta. destruct (tryBody net); (split; [reflexivity |]);
    exists f; eexists; split; [exact Hf | reflexivity | exact Hf | reflexivity].
Qed.

(** ** The score of a successful response *)

(** A server score other than 0 is stored as it is, whatever the text. *)
Lemma handleSubmit_server_score (st : State) (v : Z) (text : string) :
  spec_violation st = None -> v <> 0%Z ->
  option_map matchScore (results (fst (handleSubmit (successResponse (Some v) text) st)))
  = Some v.
Proof.
  intros Hv Hnz.
  destruct (handleSubmit_valid (successResponse (Some v) text) st Hv) as (f & _ & ->).
  cbn. destruct v; congruence.
Qed.

(** The response of the specification's example: the server's 92 is what is
    stored, and the two sections are split out. *)
Lemma handleSubmit_example_92 :
  let r := results (fst (handleSubmit
             (successResponse (Some 92%Z)
                "<h2>Skills</h2>Good skills<h2>Experience</h2>5 years")
             sampleState)) in
  option_map matchScore r = Some 92%Z
  /\ option_map (fun x => skills (analysis x)) r = Some (Some "Good skills")
  /\ option_map (fun x => experience (analysis x)) r = Some (Some "5 years").
Proof. vm_compute. repeat split. Qed.

(** C2: with a server score of 0 the left operand of [||] is falsy, so the
    heuristic runs and its 78 is stored in place of the server's 0. *)
Theorem handleSubmit_server_score_zero :
  option_map matchScore
    (results (fst (handleSubmit
       (successResponse (Some 0%Z) "Match Percentage: 78%") sampleState)))
  = Some 78%Z
  /\ extractMatchScore "Match Percentage: 78%" = 78%Z.
Proof. vm_compute. split; reflexivity. Qed.

(** ** extractMatchScore *)

Example extractMatchScore_match_percentage :
  extractMatchScore "Match Percentage: 78% - Strong candidate" = 78%Z.
Proof. vm_compute. reflexivity. Qed.

Example extractMatchScore_percent_match :
  extractMatchScore "a 30% MATCH, score: 45%" = 30%Z.
Proof. vm_compute. reflexivity. Qed.

Example extractMatchScore_score :
  extractMatchScore "Overall Score: 45%, excellent" = 45%Z.
Proof. vm_compute. reflexivity. Qed.

(** With the [g] flag [match] returns the matched texts, so index 1 is the
    second match. *)
Example js_match_standalone_twice :
  js_match "between 45 % and 12%" pat_standalone = Some [Some "45 %"; Some "12%"].
Proof. vm_compute. reflexivity. Qed.

Example extractMatchScore_second_standalone :
  extractMatchScore "between 45 % and 12%" = 12%Z.
Proof. vm_compute. reflexivity. Qed.

(** C1: on a text whose only percentage is one standalone "50%", the fourth
    pattern matches once, index 1 of the array is [undefined], [parseInt]
    gives [NaN], and the keyword fallback answers 60. *)
Theorem extractMatchScore_single_standalone :
  js_match "Result 50%" pat_match_percentage = None
  /\ js_match "Result 50%" pat_percent_match = None
  /\ js_match "Result 50%" pat_score = None
  /\ js_match "Result 50%" pat_standalone = Some [Some "50%"]
  /\ parseInt (at_index [Some "50%"] 1) = None
  /\ extractMatchScore "Result 50%" = 60%Z.
Proof. vm_compute. repeat split. Qed.

Lemma tryPattern_some (t : string) (p : regex) (v : Z) :
  tryPattern t p = Some v ->
  exists mt, js_match t p = Some mt
             /\ parseInt (at_index mt 1) = Some v
             /\ (0 <= v <= 100)%Z.
Proof.
  unfold tryPattern. destruct (js_match t p) as [mt |]; [| discriminate].
  destruct (inRange (parseInt (at_index mt 1))) eqn:Hr; [| discriminate].
  intros E. exists mt. rewrite E in *. cbn in Hr.
  apply andb_prop in Hr as [H0 H1].
  apply Z.leb_le in H0. apply Z.leb_le in H1. auto.
Qed.

Lemma tryPatterns_some (t : string) (ps : list regex) (v : Z) :
  tryPatterns t ps = Some v ->
  exists p mt, In p ps /\ js_match t p = Some mt
               /\ parseInt (at_index mt 1) = Some v
               /\ (0 <= v <= 100)%Z.
Proof.
  induction ps as [| p ps IH]; cbn; [discriminate |].
  destruct (tryPattern t p) as [w |] eqn:Hp.
  - intros E. inversion E; subst w.
    apply tryPattern_some in Hp as (mt & Hm & Hi & Hr).
    exists p, mt. auto.
  - intros E. destruct (IH E) as (q & mt & Hin & Hm & Hi & Hr).
    exists q, mt. auto.
Qed.

Lemma tryPatterns_none (t : string) (ps : list regex) :
  (forall p, In p ps -> tryPattern t p = None) -> tryPatterns t ps = None.
Proof.
  induction ps as [| p ps IH]; cbn; intros H; [reflexivity |].
  rewrite (H p (or_introl eq_refl)). apply IH. intros q Hq. apply H. now right.
Qed.

Lemma keywordScore_values (t : string) :
  keywordScore t = 85%Z \/ keywordScore t = 75%Z
  \/ keywordScore t = 65%Z \/ keywordScore t = 60%Z.
Proof.
  unfold keywordScore.
  repeat match goal with |- context [if ?b then _ else _] => destruct b end; auto.
Qed.

(** C10: [extractMatchScore] is defined on every string and its result lies
    in [0,100]: it is the in-range number read at index 1 of the match of
    one of the patterns, or one of 85, 75, 65, 60; so it is on the empty
    string and on "150%". *)
Theorem extractMatchScore_range :
  (forall t : string,
      (0 <= extractMatchScore t <= 100)%Z
      /\ ((exists p mt, In p patterns /\ js_match t p = Some mt
                        /\ parseInt (at_index mt 1) = Some (extractMatchScore t))
          \/ In (extractMatchScore t) [85; 75; 65; 60]%Z))
  /\ extractMatchScore "" = 60%Z
  /\ extractMatchScore "150%" = 60%Z.
Proof.
  split; [| split; vm_compute; reflexivity].
  intros t. unfold extractMatchScore.
  destruct (tryPatterns t patterns) as [v |] eqn:Hp.
  - apply tryPatterns_some in Hp as (p & mt & Hin & Hm & Hi & Hr).
    split; [exact Hr | left; exists p, mt; auto].
  - assert (H := keywordScore_values t).
    split; [lia | right; cbn; intuition].
Qed.

(** When the loop over the patterns returns nothing, the answer is the
    keyword tier of the lowercased text, tried in the order excellent /
    strong match, good / suitable, fair / potential, else 60. *)
Lemma extractMatchScore_after_loop (t : string) :
  tryPatterns t patterns = None ->
  let has := includes (toLowerCase t) in
  extractMatchScore t =
    (if has "excellent" || has "strong match" then 85
     else if has "good" || has "suitable" then 75
     else if has "fair" || has "potential" then 65
     else 60)%Z.
Proof.
  intros H has. unfold extractMatchScore. now rewrite H.
Qed.

(** C4: on "150% and 50%" none of the four patterns has a first match with
    a capture in [0,100] - the first three do not match and the first
    standalone percentage captures 150 - and no keyword occurs, so the tier
    would be 60; but under the [g] flag index 1 of the match array is the
    second matched text, "50%", and the answer is 50. *)
Theorem extractMatchScore_second_standalone_wins :
  (forall p, In p patterns ->
             inRange (firstCapture "150% and 50%" p) = false)
  /\ firstCapture "150% and 50%" pat_standalone = Some 150%Z
  /\ keywordScore "150% and 50%" = 60%Z
  /\ js_match "150% and 50%" pat_standalone = Some [Some "150%"; Some "50%"]
  /\ extractMatchScore "150% and 50%" = 50%Z.
Proof.
  split; [| vm_compute; repeat split].
  intros p Hin. cbn [patterns In] in Hin.
  repeat (destruct Hin as [<- | Hin]; [vm_compute; reflexivity |]).
  contradiction.
Qed.

Example extractMatchScore_excellent :
  extractMatchScore "We think this is an excellent fit" = 85%Z.
Proof. vm_compute. reflexivity. Qed.

Example extractMatchScore_decent :
  extractMatchScore "Decent resume" = 60%Z.
Proof. vm_compute. reflexivity. Qed.

Example extractMatchScore_tiers :
  extractMatchScore "A STRONG MATCH, good and fair" = 85%Z
  /\ extractMatchScore "Suitable, with potential" = 75%Z
  /\ extractMatchScore "Fair enough" = 65%Z.
Proof. vm_compute. repeat split. Qed.

(** ** Score bands *)

(** C5 as stated fails for the label: 65 and 50 fall in the same band of
    the four, below 70, and get two labels. *)
Lemma label_not_four_bands :
  spec_band 65 = spec_band 50
  /\ getScoreColor 65 = getScoreColor 50
  /\ getScoreIcon 65 = getScoreIcon 50
  /\ getScoreDescription 65 <> getScoreDescription 50.
Proof. vm_compute. repeat split. discriminate. Qed.

(** C5, amended: colour and icon are the same for two scores exactly when
    the scores are in the same band of the four with cut points 90, 80 and
    70; the label is the same exactly when they are in the same band of the
    five with the further cut point 60. *)
Theorem score_bands (s1 s2 : Z) :
  (getScoreColor s1 = getScoreColor s2 <-> spec_band s1 = spec_band s2)
  /\ (getScoreIcon s1 = getScoreIcon s2 <-> spec_band s1 = spec_band s2)
  /\ (getScoreDescription s1 = getScoreDescription s2
      <-> label_band s1 = label_band s2).
Proof.
  unfold getScoreColor, getScoreIcon, getScoreDescription, spec_band, label_band.
  destruct (90 <=? s1)%Z, (80 <=? s1)%Z, (70 <=? s1)%Z, (60 <=? s1)%Z,
           (90 <=? s2)%Z, (80 <=? s2)%Z, (70 <=? s2)%Z, (60 <=? s2)%Z;
    repeat split; intros; try reflexivity; discriminate.
Qed.

(** ** The error banner *)

Section BannerFacts.
Import Banner.
Local Open Scope list_scope.

Lemma filter_not_effect (ts : list Timer) :
  filter isEffect (filter (fun t => negb (isEffect t)) ts) = [].
Proof.
  induction ts as [| t ts IH]; cbn; [reflexivity |].
  destruct (isEffect t) eqn:E; cbn; [exact IH |].
  rewrite E. exact IH.
Qed.

Lemma errorEffect_timers (u : UI) :
  effectTimers (errorEffect u)
  = if truthy (shown u)
    then [{| owner := ByEffect; set_at := now u; delay := 8000 |}]
    else [].
Proof.
  unfold effectTimers, errorEffect. cbn [pending].
  rewrite filter_app, filter_not_effect.
  destruct (truthy (shown u)); reflexivity.
Qed.

Lemma setError_ok (v : option string) (u : UI) :
  timers_ok u -> timers_ok (Banner.setError v u).
Proof.
  intros (Hdue & Hshare & Heff). unfold Banner.setError.
  destruct (sameValue v (shown u)); [exact (conj Hdue (conj Hshare Heff)) |].
  split; [| split].
  - intros t H. cbn [pending errorEffect now shown] in *.
    apply in_app_or in H as [H | H].
    + apply filter_In in H as [H _]. now apply Hdue.
    + destruct (truthy v); [| contradiction].
      destruct H as [<- | []]. unfold due. cbn [set_at delay]. lia.
  - intros t H Ho. cbn [pending errorEffect now shown] in *.
    apply in_app_or in H as [H | H].
    + apply filter_In in H as [H _]. now apply Hshare.
    + destruct (truthy v); [| contradiction].
      destruct H as [<- | []]. discriminate.
  - rewrite errorEffect_timers. cbn [shown now errorEffect].
    destruct (truthy v); [eexists |]; reflexivity.
Qed.

Lemma shareTimeout_ok (u : UI) : timers_ok u -> timers_ok (shareTimeout u).
Proof.
  intros (Hdue & Hshare & Heff). unfold shareTimeout. split; [| split].
  - intros t H. cbn [pending now] in *. apply in_app_or in H as [H | [<- | []]].
    + now apply Hdue.
    + unfold due. cbn [set_at delay]. lia.
  - intros t H Ho. cbn [pending] in H. apply in_app_or in H as [H | [<- | []]].
    + now apply Hshare.
    + reflexivity.
  - unfold effectTimers in *. cbn [pending shown].
    rewrite filter_app. cbn [filter isEffect owner]. rewrite app_nil_r. exact Heff.
Qed.

Lemma takeDue_split (t0 : N) (ts : list Timer) (x : Timer) (rest : list Timer) :
  takeDue t0 ts = Some (x, rest) ->
  (due x <= t0)%N
  /\ exists l1 l2, ts = l1 ++ x :: l2 /\ rest = l1 ++ l2.
Proof.
  revert rest. induction ts as [| t ts IH]; cbn; intros rest H; [discriminate |].
  destruct (due t <=? t0)%N eqn:E.
  - inversion H; subst. split; [now apply N.leb_le |].
    exists [], rest. split; reflexivity.
  - destruct (takeDue t0 ts) as [[y r] |]; [| discriminate].
    inversion H; subst.
    destruct (IH r eq_refl) as (Hd & l1 & l2 & -> & ->).
    split; [exact Hd |]. exists (t :: l1), l2. split; reflexivity.
Qed.

Lemma in_remove_middle (x : Timer) (l1 l2 : list Timer) (t : Timer) :
  In t (l1 ++ l2) -> In t (l1 ++ x :: l2).
Proof.
  intros H. apply in_app_or in H as [H | H]; apply in_or_app;
    [now left | right; now right].
Qed.

(** A timer that fires leaves the banner empty and no effect timer behind. *)
Lemma fire_ok (u : UI) (x : Timer) (l1 l2 : list Timer) :
  timers_ok u -> pending u = l1 ++ x :: l2 ->
  let u' := Banner.setError None
              {| now := now u; shown := shown u; pending := l1 ++ l2 |} in
  timers_ok u' /\ shown u' = None.
Proof.
  intros (Hdue & Hshare & Heff) Hp u'. subst u'. unfold Banner.setError.
  cbn [shown]. destruct (shown u) as [s |] eqn:Hs; cbn [sameValue].
  - split; [| reflexivity]. split; [| split].
    + intros t H. cbn [pending errorEffect now shown truthy] in *.
      rewrite app_nil_r in H. apply filter_In in H as [H _].
      apply Hdue. rewrite Hp. now apply in_remove_middle.
    + intros t H. cbn [pending errorEffect now shown truthy] in *.
      rewrite app_nil_r in H. apply filter_In in H as [H _].
      apply Hshare. rewrite Hp. now apply in_remove_middle.
    + rewrite errorEffect_timers. reflexivity.
  - split; [| reflexivity]. split; [| split]; cbn [pending now shown].
    + intros t H. apply Hdue. rewrite Hp. now apply in_remove_middle.
    + intros t H. apply Hshare. rewrite Hp. now apply in_remove_middle.
    + cbn [truthy] in *. unfold effectTimers in *. cbn [pending].
      rewrite Hp in Heff. rewrite filter_app in *. cbn [filter] in Heff.
      destruct (isEffect x).
      * destruct (filter isEffect l1); discriminate.
      * exact Heff.
Qed.

Lemma step_ok (e : Event) (u u' : UI) :
  timers_ok u -> step e u = Some u' -> timers_ok u'.
Proof.
  intros Hok Hs. destruct e as [v | | d |]; cbn in Hs.
  - inversion Hs; subst. now apply setError_ok.
  - inversion Hs; subst. unfold shareCopied.
    now apply setError_ok, shareTimeout_ok.
  - destruct (forallb _ _) eqn:Hall; [| discriminate].
    inversion Hs; subst. destruct Hok as (Hdue & Hshare & Heff).
    rewrite forallb_forall in Hall.
    split; [| split]; cbn [pending now shown] in *.
    + intros t H. split.
      * destruct (Hdue t H). lia.
      * apply N.leb_le. now apply Hall.
    + exact Hshare.
    + exact Heff.
  - destruct (takeDue (now u) (pending u)) as [[x rest] |] eqn:Ht; [| discriminate].
    inversion Hs; subst.
    apply takeDue_split in Ht as (_ & l1 & l2 & Hp & ->).
    now apply (fire_ok u x l1 l2).
Qed.

Lemma initial_ok : timers_ok initial.
Proof.
  split; [| split]; cbn; [intros t [] | intros t [] | reflexivity].
Qed.

Lemma run_ok (es : list Event) (u u' : UI) :
  timers_ok u -> run es u = Some u' -> timers_ok u'.
Proof.
  revert u. induction es as [| e es IH]; cbn; intros u Hok H.
  - now inversion H; subst.
  - destruct (step e u) as [u1 |] eqn:Hs; [| discriminate].
    apply (IH u1); [| exact H]. now apply (step_ok e u).
Qed.

(** C6 as stated fails at the share button: once the clipboard write has
    resolved two timers are pending, and the notice is gone after 2000 ms,
    not 8000. *)
Lemma share_notice_two_timers :
  run [ShareCopied] initial
  = Some {| now := 0;
            shown := Some "Analysis link copied to clipboard!";
            pending := [ {| owner := ByShare; set_at := 0; delay := 2000 |};
                         {| owner := ByEffect; set_at := 0; delay := 8000 |} ] |}
  /\ run [ShareCopied; Wait 2000; Fire] initial
     = Some {| now := 2000; shown := None; pending := [] |}
  /\ ~ (forall es u, run es initial = Some u -> (length (pending u) <= 1)%nat).
Proof.
  split; [reflexivity | split; [reflexivity |]].
  intros H. specialize (H [ShareCopied] _ eq_refl). cbn in H. lia.
Qed.

(** The effect never cancels the timer of a share. *)
Lemma setError_keeps_share (v : option string) (u : UI) :
  shareTimers (Banner.setError v u) = shareTimers u.
Proof.
  unfold Banner.setError. destruct (sameValue v (shown u)); [reflexivity |].
  unfold shareTimers, errorEffect. cbn [pending shown].
  rewrite filter_app.
  assert (E : forall l, filter (fun t => negb (isEffect t))
                          (filter (fun t => negb (isEffect t)) l)
                        = filter (fun t => negb (isEffect t)) l).
  { induction l as [| t l IH]; [reflexivity |]. cbn [filter].
    destruct (negb (isEffect t)) eqn:Et; [| exact IH].
    cbn [filter]. now rewrite Et, IH. }
  rewrite E. destruct (truthy v); cbn [filter isEffect owner negb];
    apply app_nil_r.
Qed.

Lemma shareCopied_shares (u : UI) :
  shareTimers (shareCopied u)
  = shareTimers u ++ [{| owner := ByShare; set_at := now u; delay := 2000 |}].
Proof.
  unfold shareCopied. rewrite setError_keeps_share.
  unfold shareTimers, shareTimeout. cbn [pending]. now rewrite filter_app.
Qed.

(** Every pending timer is the effect's or a share's. *)
Lemma pending_count (u : UI) :
  length (pending u) = (length (effectTimers u) + length (shareTimers u))%nat.
Proof.
  unfold effectTimers, shareTimers. induction (pending u) as [| t l IH];
    [reflexivity |].
  cbn [filter length]. destruct (isEffect t); cbn [negb length]; lia.
Qed.

(** The effect's timer, and what a share adds. *)
Lemma effect_timer_facts (u : UI) :
  timers_ok u ->
  (if truthy (shown u)
   then exists t0, effectTimers u
                   = [{| owner := ByEffect; set_at := t0; delay := 8000 |}]
                   /\ (t0 <= now u <= t0 + 8000)%N
   else effectTimers u = [])
  /\ (forall msg, truthy (Some msg) = true -> shown u <> Some msg ->
        shown (Banner.setError (Some msg) u) = Some msg
        /\ effectTimers (Banner.setError (Some msg) u)
           = [{| owner := ByEffect; set_at := now u; delay := 8000 |}])
  /\ (forall x rest, takeDue (now u) (pending u) = Some (x, rest) ->
        isEffect x = true ->
        now u = (set_at x + 8000)%N
        /\ exists u', step Fire u = Some u'
                      /\ shown u' = None /\ effectTimers u' = [])
  /\ (In {| owner := ByShare; set_at := now u; delay := 2000 |}
         (pending (shareCopied u))
      /\ shown (shareCopied u) = Some "Analysis link copied to clipboard!"
      /\ exists t0, effectTimers (shareCopied u)
                    = [{| owner := ByEffect; set_at := t0; delay := 8000 |}]).
Proof.
  intros Hok.
  split; [| split; [| split]].
  - destruct Hok as (Hdue & _ & Heff).
    destruct (truthy (shown u)); [| exact Heff].
    destruct Heff as (t0 & Heff). exists t0. split; [exact Heff |].
    assert (Hin : In {| owner := ByEffect; set_at := t0; delay := 8000 |} (pending u)).
    { apply (proj1 (filter_In isEffect _ (pending u))).
      fold (effectTimers u). rewrite Heff. now left. }
    apply Hdue in Hin. exact Hin.
  - intros msg Ht Hne. unfold Banner.setError.
    replace (sameValue (Some msg) (shown u)) with false.
    + split; [reflexivity |]. rewrite errorEffect_timers. cbn [shown now].
      now rewrite Ht.
    + symmetry. destruct (shown u) as [s |]; [| reflexivity].
      unfold sameValue. apply String.eqb_neq. congruence.
  - intros x rest Ht Hx. cbn [step]. rewrite Ht.
    apply takeDue_split in Ht as (Hd & l1 & l2 & Hp & ->).
    assert (Hin : In x (pending u))
      by (rewrite Hp; apply in_or_app; right; now left).
    split.
    + destruct Hok as (Hdue & _ & Heff). apply Hdue in Hin as Hb.
      assert (Hx' : In x (effectTimers u)) by (apply filter_In; auto).
      destruct (truthy (shown u)); [| now rewrite Heff in Hx'].
      destruct Heff as (t0 & Heff). rewrite Heff in Hx'.
      destruct Hx' as [<- | []]. unfold due in *. cbn [set_at delay] in *. lia.
    + eexists. split; [reflexivity |].
      destruct (fire_ok u x l1 l2 Hok Hp) as ((_ & _ & Heff) & Hshown).
      split; [exact Hshown |]. rewrite Hshown in Heff. exact Heff.
  - assert (Hok' : timers_ok (shareCopied u))
      by (now apply setError_ok, shareTimeout_ok).
    assert (Hshown : shown (shareCopied u) = Some "Analysis link copied to clipboard!").
    { unfold shareCopied, Banner.setError. cbn [shown shareTimeout].
      destruct (sameValue _ (shown u)) eqn:E; [| reflexivity].
      cbn [shown shareTimeout].
      destruct (shown u) as [s |]; [| discriminate]. unfold sameValue in E.
      apply String.eqb_eq in E. now subst s. }
    split; [| split; [exact Hshown |]].
    + unfold shareCopied, Banner.setError. cbn [shown shareTimeout].
      destruct (sameValue _ (shown u)).
      * cbn [pending]. apply in_or_app. right. now left.
      * cbn [pending errorEffect now]. apply in_or_app. left.
        apply filter_In. split; [| reflexivity].
        apply in_or_app. right. now left.
    + destruct Hok' as (_ & _ & Heff). rewrite Hshown in Heff. exact Heff.
Qed.

(** C6, amended: in every reachable state the effect has one 8000 ms timer
    pending while a message is shown and none otherwise; setting a message
    that differs from the one shown leaves exactly the effect timer started
    at that moment; that timer fires 8000 ms after it was started and the
    error state is then null.  The share notice comes with a 2000 ms timer
    of its own that the effect never cancels: right after a share the
    notice is shown and one effect timer is pending beside the new share
    timer and the share timers that were pending, at least two timers in
    all; a share timer fires 2000 ms after its share and the error state is
    then null. *)
Theorem banner_timers (es : list Event) (u : UI) :
  run es initial = Some u ->
  (if truthy (shown u)
   then exists t0, effectTimers u
                   = [{| owner := ByEffect; set_at := t0; delay := 8000 |}]
                   /\ (t0 <= now u <= t0 + 8000)%N
   else effectTimers u = [])
  /\ (forall msg, truthy (Some msg) = true -> shown u <> Some msg ->
        shown (Banner.setError (Some msg) u) = Some msg
        /\ effectTimers (Banner.setError (Some msg) u)
           = [{| owner := ByEffect; set_at := now u; delay := 8000 |}])
  /\ (forall x rest, takeDue (now u) (pending u) = Some (x, rest) ->
        isEffect x = true ->
        now u = (set_at x + 8000)%N
        /\ exists u', step Fire u = Some u'
                      /\ shown u' = None /\ effectTimers u' = [])
  /\ (In {| owner := ByShare; set_at := now u; delay := 2000 |}
         (pending (shareCopied u))
      /\ shown (shareCopied u) = Some "Analysis link copied to clipboard!"
      /\ exists t0, effectTimers (shareCopied u)
                    = [{| owner := ByEffect; set_at := t0; delay := 8000 |}])
  /\ (forall v, shareTimers (Banner.setError v u) = shareTimers u)
  /\ (shareTimers (shareCopied u)
      = shareTimers u ++ [{| owner := ByShare; set_at := now u; delay := 2000 |}]
      /\ length (pending (shareCopied u)) = (2 + length (shareTimers u))%nat)
  /\ (forall x rest, takeDue (now u) (pending u) = Some (x, rest) ->
        isEffect x = false ->
        delay x = 2000%N /\ now u = (set_at x + 2000)%N
        /\ exists u', step Fire u = Some u' /\ shown u' = None).
Proof.
  intros Hrun. assert (Hok := run_ok es initial u initial_ok Hrun).
  destruct (effect_timer_facts u Hok) as (H1 & H2 & H3 & H4).
  split; [exact H1 |]. split; [exact H2 |]. split; [exact H3 |].
  split; [exact H4 |]. split; [intros v; apply setError_keeps_share |].
  split.
  - split; [apply shareCopied_shares |].
    rewrite pending_count, shareCopied_shares, List.length_app.
    destruct H4 as (_ & _ & t0 & ->). cbn [length]. lia.
  - intros x rest Ht Hx. cbn [step]. rewrite Ht.
    apply takeDue_split in Ht as (Hd & l1 & l2 & Hp & ->).
    assert (Hin : In x (pending u))
      by (rewrite Hp; apply in_or_app; right; now left).
    assert (Ho : owner x = ByShare)
      by (unfold isEffect in Hx; destruct (owner x); [discriminate | reflexivity]).
    destruct Hok as (Hdue & Hshare & Heff).
    assert (Hdel := Hshare x Hin Ho). split; [exact Hdel |]. split.
    + apply Hdue in Hin. unfold due in *. rewrite Hdel in *. lia.
    + eexists. split; [reflexivity |].
      now destruct (fire_ok u x l1 l2 (conj Hdue (conj Hshare Heff)) Hp).
Qed.

Lemma banner_timers_witness :
  let u := {| now := 3000; shown := Some "Only PDF files are allowed";
              pending := [{| owner := ByEffect; set_at := 0; delay := 8000 |}] |} in
  run [SetError (Some "Only PDF files are allowed"); Wait 3000] initial = Some u
  /\ exists t0, effectTimers u
                = [{| owner := ByEffect; set_at := t0; delay := 8000 |}]
                /\ (t0 <= now u <= t0 + 8000)%N.
Proof.
  intros u. split; [reflexivity |].
  exact (proj1 (banner_timers
                  [SetError (Some "Only PDF files are allowed"); Wait 3000]
                  u eq_refl)).
Defined.

End BannerFacts.

(** ** Strings *)

Section StringFacts.

Lemma take_drop (n : nat) (s : string) : s = take n s ++ drop n s.
Proof.
  revert s. induction n as [| n IH]; intros [| a s]; cbn; try reflexivity.
  now rewrite <- IH.
Qed.

Lemma toLowerCase_app (s t : string) :
  toLowerCase (s ++ t) = toLowerCase s ++ toLowerCase t.
Proof. induction s as [| a s IH]; cbn; [reflexivity | now rewrite IH]. Qed.

Lemma startsWith_take (p s : string) :
  startsWith p s = true -> take (String.length p) s = p.
Proof.
  revert s. induction p as [| c p IH]; intros [| a s]; cbn; try reflexivity;
    try discriminate.
  intros H. apply andb_prop in H as [Hc Hp]. apply Ascii.eqb_eq in Hc.
  subst a. now rewrite IH.
Qed.

Lemma toLowerCase_take (n : nat) (s : string) :
  toLowerCase (take n s) = take n (toLowerCase s).
Proof.
  revert s. induction n as [| n IH]; intros [| a s]; cbn; try reflexivity.
  now rewrite IH.
Qed.

Lemma length_app (s t : string) :
  String.length (s ++ t) = String.length s + String.length t.
Proof. induction s as [| a s IH]; cbn; [reflexivity | now rewrite IH]. Qed.

Lemma take_app_length (s t : string) :
  take (String.length (s ++ t) - String.length t) (s ++ t) = s.
Proof.
  rewrite length_app. replace (String.length s + String.length t - String.length t)
    with (String.length s) by lia.
  induction s as [| a s IH]; cbn; [now destruct t | now rewrite IH].
Qed.

Lemma app_assoc_s (a b c : string) : (a ++ b) ++ c = a ++ b ++ c.
Proof. induction a as [| x a IH]; cbn; [reflexivity | now rewrite IH]. Qed.

Lemma includes_suffix (pre s p : string) :
  includes s p = true -> includes (pre ++ s) p = true.
Proof.
  intros H. induction pre as [| a pre IH]; [exact H |].
  cbn [append includes]. rewrite IH. apply orb_true_r.
Qed.

Lemma includes_tail (a : ascii) (s p : string) :
  includes (String a s) p = false -> includes s p = false.
Proof.
  cbn [includes]. intros H. now apply orb_false_elim in H as [_ H].
Qed.

End StringFacts.

(** ** Tables over the code units

    A property of one code unit is checked on all 256 of them. *)

Lemma all_ascii_in (a : ascii) : In a all_ascii.
Proof.
  unfold all_ascii. rewrite <- (ascii_nat_embedding a).
  apply in_map, in_seq. split; [lia |]. apply nat_ascii_bounded.
Qed.

Ltac lookup T a :=
  let H := fresh "T" in
  assert (H := T); rewrite forallb_forall in H;
  specialize (H a (all_ascii_in a)).

Lemma fold_lower_table :
  forallb (fun c =>
    forallb (fun a =>
      implb (stable c)
        (Bool.eqb (canonicalize a =? canonicalize c)%N (Ascii.eqb (lowerChar a) c)))
      all_ascii) all_ascii = true.
Proof. vm_compute. reflexivity. Qed.

Lemma fold_lower (c a : ascii) :
  stable c = true ->
  (canonicalize a =? canonicalize c)%N = Ascii.eqb (lowerChar a) c.
Proof.
  intros Hc. lookup fold_lower_table c. lookup T a.
  rewrite Hc in T0. cbn [implb] in T0. now apply Bool.eqb_prop.
Qed.

Lemma level_table :
  forallb (fun a =>
    Bool.eqb (cls_match fl_is (CRange "2" "4") a) (isLevel a)
    && implb (isLevel a) (Ascii.eqb (lowerChar a) a)) all_ascii = true.
Proof. vm_compute. reflexivity. Qed.

Lemma level_match (a : ascii) :
  cls_match fl_is (CRange "2" "4") a = isLevel a.
Proof.
  lookup level_table a. apply andb_prop in T as [T _].
  now apply Bool.eqb_prop.
Qed.

Lemma level_lower (a : ascii) : isLevel a = true -> lowerChar a = a.
Proof.
  intros H. lookup level_table a. apply andb_prop in T as [_ T].
  rewrite H in T. now apply Ascii.eqb_eq.
Qed.

Lemma level_lower_table :
  forallb (fun d =>
    Bool.eqb (Ascii.eqb "2" (lowerChar d) || Ascii.eqb "3" (lowerChar d)
              || Ascii.eqb "4" (lowerChar d))
             (isLevel d)) all_ascii = true.
Proof. vm_compute. reflexivity. Qed.

Lemma percent_table :
  forallb (fun a =>
    implb (cls_match fl_i (CChar "%") a) (Ascii.eqb a "%")
    && implb (cls_match fl_g (CChar "%") a) (Ascii.eqb a "%")) all_ascii = true.
Proof. vm_compute. reflexivity. Qed.

Lemma percent_only (f : flags) (a : ascii) :
  f = fl_i \/ f = fl_g -> cls_match f (CChar "%") a = true -> a = "%"%char.
Proof.
  intros Hf H. lookup percent_table a. apply andb_prop in T as [T1 T2].
  destruct Hf; subst f; [rewrite H in T1 | rewrite H in T2];
    now apply Ascii.eqb_eq.
Qed.

(** ** The matcher *)

Section Matcher.

(** What a lazy star yields: the shortest run of accepted units after which
    the continuation succeeds. *)
Lemma lazy_star_first (p : ascii -> bool) (s : string)
    (k : string -> option mstate) (x : mstate) :
  lazy_star p s k = Some x ->
  exists s1 s2, s = s1 ++ s2 /\ k s2 = Some x
                /\ forall c1 c2, s1 = c1 ++ c2 -> c2 <> "" -> k (c2 ++ s2) = None.
Proof.
  induction s as [| a s IH]; cbn.
  - destruct (k "") eqn:E; [| discriminate]. intros H; inversion H; subst.
    exists "", "". split; [reflexivity | split; [exact E |]].
    intros [| ? ?] [| ? ?]; cbn; congruence.
  - destruct (k (String a s)) eqn:E.
    + intros H; inversion H; subst. exists "", (String a s).
      split; [reflexivity | split; [exact E |]].
      intros [| ? ?] [| ? ?]; cbn; congruence.
    + destruct (p a); [| discriminate]. intros H.
      destruct (IH H) as (s1 & s2 & -> & Hk & Hmin).
      exists (String a s1), s2. split; [reflexivity | split; [exact Hk |]].
      intros [| b c1] c2 Hc Hne.
      * cbn in Hc. subst c2. exact E.
      * cbn in Hc. inversion Hc; subst. now apply (Hmin c1 c2).
Qed.

Lemma greedy_star_cont (p : ascii -> bool) (s : string)
    (k : string -> option mstate) (x : mstate) :
  greedy_star p s k = Some x -> exists s1 s2, s = s1 ++ s2 /\ k s2 = Some x.
Proof.
  induction s as [| a s IH]; cbn.
  - intros H. now exists "", "".
  - destruct (p a).
    + destruct (greedy_star p s k) eqn:E.
      * intros H. inversion H; subst.
        destruct (IH eq_refl) as (s1 & s2 & -> & Hk).
        now exists (String a s1), s2.
      * intros H. now exists "", (String a s).
    + intros H. now exists "", (String a s).
Qed.

Variable f : flags.

(** A successful match hands some suffix of the input to the continuation. *)
Lemma m_cont (r : re) :
  forall s cap k x, m f r s cap k = Some x ->
  exists s1 s2 cap', s = s1 ++ s2 /\ k s2 cap' = Some x.
Proof.
  induction r as [| c | r1 IH1 r2 IH2 | r1 IH1 r2 IH2 | c | c | r1 IH1 | r1 IH1 |];
    intros s cap k x; cbn [m].
  - intros H. now exists "", s, cap.
  - destruct s as [| a s]; [discriminate |].
    destruct (cls_match f c a); [| discriminate].
    intros H. now exists (String a ""), s, cap.
  - intros H. apply IH1 in H as (s1 & s2 & cap1 & -> & H).
    apply IH2 in H as (t1 & t2 & cap2 & -> & H).
    exists (s1 ++ t1), t2, cap2. now rewrite app_assoc_s.
  - destruct (m f r1 s cap k) eqn:E.
    + intros H. inversion H; subst. now apply IH1 in E.
    + apply IH2.
  - intros H. apply lazy_star_first in H as (s1 & s2 & -> & H & _).
    now exists s1, s2, cap.
  - intros H. apply greedy_star_cont in H as (s1 & s2 & -> & H).
    now exists s1, s2, cap.
  - intros H. apply IH1 in H as (s1 & s2 & cap1 & -> & H).
    now exists s1, s2, (Some (take (String.length (s1 ++ s2) - String.length s2) (s1 ++ s2))).
  - destruct (m f r1 s cap (fun s' cap' => Some (s', cap'))) as [[? cap1] |];
      [| discriminate].
    intros H. now exists "", s, cap1.
  - destruct s; [| discriminate]. intros H. now exists "", "", cap.
Qed.

(** A pattern that needs a character matches only texts that hold it, when
    nothing else folds to that character. *)
Lemma needs_reads (c : ascii) (r : re) :
  (forall a, cls_match f (CChar c) a = true -> a = c) ->
  needs c r = true ->
  forall s cap k x, m f r s cap k = Some x -> includes s (String c "") = true.
Proof.
  intros Hc.
  induction r as [| cl | r1 IH1 r2 IH2 | r1 IH1 r2 IH2 | cl | cl | r1 IH1 | r1 IH1 |];
    cbn [needs]; try discriminate; intros Hn s cap k x; cbn [m].
  - destruct cl as [p | | | |]; try discriminate.
    apply Ascii.eqb_eq in Hn. subst p.
    destruct s as [| a s]; [discriminate |].
    destruct (cls_match f (CChar c) a) eqn:E; [| discriminate].
    intros _. apply Hc in E. subst a. cbn. now rewrite Ascii.eqb_refl.
  - intros H. apply orb_prop in Hn as [Hn | Hn].
    + now apply (IH1 Hn) in H.
    + apply m_cont in H as (s1 & s2 & cap1 & -> & H).
      apply includes_suffix. now apply (IH2 Hn) in H.
  - apply andb_prop in Hn as [Hn1 Hn2].
    destruct (m f r1 s cap k) eqn:E.
    + intros _. now apply (IH1 Hn1) in E.
    + now apply IH2.
  - now apply IH1.
Qed.

Section IgnoreCase.

Hypothesis Hi : ignoreCase f = true.

(** A literal under the [i] flag reads the units whose lowercase is the
    literal. *)
Lemma m_lit_ci (p s : string) (cap : option string) (k : cont) :
  forallb stable (list_ascii_of_string p) = true ->
  m f (lit p) s cap k
  = if startsWith p (toLowerCase s) then k (drop (String.length p) s) cap else None.
Proof.
  revert s. induction p as [| c p IH]; intros s Hp.
  - cbn. now destruct s.
  - cbn [list_ascii_of_string forallb] in Hp. apply andb_prop in Hp as [Hc Hp].
    cbn [lit m]. destruct s as [| a s]; [reflexivity |].
    cbn [cls_match toLowerCase startsWith String.length drop]. rewrite Hi.
    rewrite (fold_lower c a Hc), Ascii.eqb_sym.
    destruct (Ascii.eqb c (lowerChar a)); cbn [andb]; [now apply IH | reflexivity].
Qed.

End IgnoreCase.

End Matcher.

(** ** The section pattern *)

Lemma opensHeading_eq (s : string) :
  opensHeading s
  = startsWith "<h" (toLowerCase s)
    && match drop 2 s with
       | String d _ => isLevel d
       | EmptyString => false
       end.
Proof.
  unfold opensHeading.
  destruct s as [| a [| b [| d r]]]; cbn [toLowerCase startsWith drop];
    try (repeat match goal with |- context [Ascii.eqb ?x ?y] =>
                  destruct (Ascii.eqb x y) end; reflexivity).
  lookup level_lower_table d. apply Bool.eqb_prop in T. rewrite <- T.
  destruct (Ascii.eqb "<" (lowerChar a)), (Ascii.eqb "h" (lowerChar b));
    cbn [andb orb]; try reflexivity.
  now rewrite !andb_true_r.
Qed.

(** The lookahead that ends the pattern succeeds exactly at the end of the
    text and where a heading opens, and leaves the capture alone. *)
Lemma ahead_eq (s : string) (cap : option string) :
  m fl_is (Seq (Ahead nextHeading) Eps) s cap accept
  = if String.eqb s "" || opensHeading s then Some (s, cap) else None.
Proof.
  rewrite opensHeading_eq. unfold nextHeading. cbn [m].
  rewrite (m_lit_ci fl_is eq_refl "<h" s cap _ eq_refl).
  destruct (startsWith "<h" (toLowerCase s)) eqn:E.
  - cbn [String.length].
    destruct s as [| a [| b [| d r]]]; [discriminate | | |];
      cbn [drop andb orb String.eqb]; try reflexivity.
    rewrite level_match. destruct (isLevel d); reflexivity.
  - destruct s; reflexivity.
Qed.

Lemma app_empty_r (a : string) : (a ++ "")%string = a.
Proof. induction a as [| x a IH]; cbn; [reflexivity | now rewrite IH]. Qed.

Lemma pat_section_source (word : string) :
  source (pat_section word) = openRe word.
Proof. reflexivity. Qed.

(** *** Lazy stars as searches *)

Lemma dot_all (a : ascii) : cls_match fl_is CDot a = true.
Proof. reflexivity. Qed.

Lemma lazy_star_ext (p : ascii -> bool) (k1 k2 : string -> option mstate) :
  (forall s, k1 s = k2 s) ->
  forall s, lazy_star p s k1 = lazy_star p s k2.
Proof.
  intros H. induction s as [| a s IH]; cbn [lazy_star]; rewrite H;
    [reflexivity |].
  destruct (k2 (String a s)); [reflexivity |]. destruct (p a); [exact IH | reflexivity].
Qed.

(** A lazy star over a class that takes every unit searches for the first
    place where the rest of the pattern matches. *)
Lemma lazy_findFrom (p : ascii -> bool) (k : string -> option mstate)
    (test : string -> option string) :
  (forall a, p a = true) ->
  (forall s, option_map snd (k s) = option_map Some (test s)) ->
  forall s, option_map snd (lazy_star p s k) = option_map Some (findFrom test s).
Proof.
  intros Hp Hk. induction s as [| a s IH]; cbn [lazy_star findFrom].
  - assert (H := Hk "").
    destruct (k ""), (test ""); cbn in *; congruence.
  - rewrite Hp. assert (H := Hk (String a s)).
    destruct (k (String a s)), (test (String a s)); cbn in *; try congruence.
Qed.

Section SectionPattern.

Lemma m_seq (f : flags) (r1 r2 : re) (s : string) (cap : option string) (k : cont) :
  m f (Seq r1 r2) s cap k = m f r1 s cap (fun s' cap' => m f r2 s' cap' k).
Proof. reflexivity. Qed.

Lemma m_seq_lazy (f : flags) (c : cls) (r : re) (s : string)
    (cap : option string) (k : cont) :
  m f (Seq (StarLazy c) r) s cap k
  = lazy_star (cls_match f c) s (fun s' => m f r s' cap k).
Proof. reflexivity. Qed.

Lemma m_seq_group_lazy (f : flags) (c : cls) (r : re) (s : string)
    (cap : option string) (k : cont) :
  m f (Seq (Group (StarLazy c)) r) s cap k
  = lazy_star (cls_match f c) s
      (fun s' => m f r s' (Some (take (String.length s - String.length s') s)) k).
Proof. reflexivity. Qed.

(** The capture runs up to the first place where the lookahead holds. *)
Lemma capture_upTo (p : ascii -> bool) :
  (forall a, p a = true) ->
  forall s pre,
    option_map snd
      (lazy_star p s
         (fun s' =>
            if String.eqb s' "" || opensHeading s'
            then Some (s', Some (take (String.length (pre ++ s) - String.length s')
                                   (pre ++ s)))
            else None))
    = Some (Some (pre ++ upToHeading s)%string).
Proof.
  intros Hp. induction s as [| a s IH]; intros pre.
  - cbn [lazy_star String.eqb orb option_map snd upToHeading].
    now rewrite take_app_length, app_empty_r.
  - cbn [lazy_star upToHeading String.eqb orb].
    destruct (opensHeading (String a s)).
    + cbn [option_map snd]. now rewrite take_app_length, app_empty_r.
    + rewrite Hp.
      replace (pre ++ String a s)%string with ((pre ++ String a "") ++ s)%string
        by (now rewrite app_assoc_s).
      rewrite IH. now rewrite app_assoc_s.
Qed.

Lemma body_eq (s : string) (cap : option string) :
  option_map snd (m fl_is bodyRe s cap accept) = Some (Some (upToHeading s)).
Proof.
  unfold bodyRe. rewrite m_seq_group_lazy.
  rewrite (lazy_star_ext _ _
             (fun s' =>
                if String.eqb s' "" || opensHeading s'
                then Some (s', Some (take (String.length ("" ++ s) - String.length s')
                                       ("" ++ s)))
                else None)).
  - apply (capture_upTo _ dot_all s "").
  - intros s'. apply ahead_eq.
Qed.

(** A tag of level 2 to 4 in the pattern reads one in the text. *)
Lemma levelTag_eq (tag : string) (r : re) (s : string) (cap : option string)
    (k : cont) :
  forallb stable (list_ascii_of_string tag) = true ->
  m fl_is (levelTagRe tag r) s cap k
  = match levelTagAt tag s with
    | Some s' => m fl_is r s' cap k
    | None => None
    end.
Proof.
  intros Ht. unfold levelTagRe, levelTagAt.
  rewrite m_seq, (m_lit_ci fl_is eq_refl tag s cap _ Ht).
  destruct (startsWith tag (toLowerCase s)); [| reflexivity].
  destruct (drop (String.length tag) s) as [| d r']; [reflexivity |].
  rewrite m_seq. cbn [m]. rewrite level_match.
  destruct (isLevel d); [| reflexivity]. cbn [andb].
  change (m fl_is (lit ">") r' cap (fun s' cap' => m fl_is r s' cap' k))
    with (m fl_is (lit ">") r' cap (fun s' cap' => m fl_is r s' cap' k)).
  rewrite (m_lit_ci fl_is eq_refl ">" r' cap _ eq_refl).
  now destruct (startsWith ">" (toLowerCase r')).
Qed.

Lemma close_eq (u : string) (cap : option string) :
  option_map snd (m fl_is closeRe u cap accept)
  = option_map Some (spec_afterClose u).
Proof.
  unfold closeRe, spec_afterClose. rewrite levelTag_eq by reflexivity.
  destruct (levelTagAt "</h" u) as [s' |]; [| reflexivity]. apply body_eq.
Qed.

Variable word : string.
Hypothesis Hword : forallb stable (list_ascii_of_string word) = true.

Lemma word_eq (t : string) (cap : option string) :
  option_map snd (m fl_is (wordRe word) t cap accept)
  = option_map Some (spec_afterWord word t).
Proof.
  unfold wordRe, spec_afterWord.
  rewrite m_seq, (m_lit_ci fl_is eq_refl word t cap _ Hword).
  destruct (startsWith word (toLowerCase t)); [| reflexivity].
  rewrite m_seq_lazy. apply (lazy_findFrom _ _ _ dot_all).
  intros s. apply close_eq.
Qed.

Lemma open_eq (s : string) (cap : option string) :
  option_map snd (m fl_is (openRe word) s cap accept)
  = option_map Some (spec_afterOpen word s).
Proof.
  unfold openRe, spec_afterOpen. rewrite levelTag_eq by reflexivity.
  destruct (levelTagAt "<h" s) as [s3 |]; [| reflexivity].
  rewrite m_seq_lazy. apply (lazy_findFrom _ _ _ dot_all).
  intros t. apply word_eq.
Qed.

Lemma matchAt_section (idx : nat) (s : string) :
  option_map group1 (matchAt (pat_section word) idx s)
  = option_map Some (spec_afterOpen word s).
Proof.
  rewrite <- (open_eq s None). unfold matchAt.
  rewrite pat_section_source. cbn [pat_section flag].
  now destruct (m fl_is (openRe word) s None accept) as [[rest cap] |].
Qed.

Lemma execFrom_section (s : string) :
  forall idx,
    option_map group1 (execFrom (pat_section word) idx s)
    = option_map Some (findFrom (spec_afterOpen word) s).
Proof.
  induction s as [| a s IH]; intros idx; cbn [execFrom findFrom].
  - assert (H := matchAt_section idx "").
    destruct (matchAt (pat_section word) idx ""), (spec_afterOpen word "");
      cbn in *; congruence.
  - assert (H := matchAt_section idx (String a s)).
    destruct (matchAt (pat_section word) idx (String a s)),
             (spec_afterOpen word (String a s)); cbn in *;
      first [discriminate | congruence | apply IH].
Qed.

(** The field that the pattern fills is the one read off the text. *)
Lemma sectionOf_section (text : string) :
  sectionOf text (pat_section word) = Some (spec_section word text).
Proof.
  unfold sectionOf, js_match, spec_section, exec.
  cbn [pat_section flag global fl_is]. fold (pat_section word).
  assert (H := execFrom_section text 0).
  destruct (execFrom (pat_section word) 0 text) as [r |],
           (findFrom (spec_afterOpen word) text) as [body |];
    cbn in H; try discriminate; [| reflexivity].
  cbn [at_index nth_error]. congruence.
Qed.

End SectionPattern.



Example parseAnalysisResult_example :
  let r := parseAnalysisResult "<h2>Skills</h2>Good skills<h2>Experience</h2>5 years" in
  skills r = Some "Good skills" /\ experience r = Some "5 years"
  /\ recommendations r = Some "".
Proof. vm_compute. repeat split. Qed.

(** The heading that is matched starts at the first opening tag and runs on
    to the word wherever it stands, in running text too. *)
Example parseAnalysisResult_word_in_body :
  skills (parseAnalysisResult
            "<h2>Experience</h2>My skills are good<h3>Other</h3>stuff")
  = Some "stuff".
Proof. vm_compute. reflexivity. Qed.

(** ** Texts without a percent sign *)

Lemma matchAt_percent (rx : regex) (idx : nat) (s : string) (r : found) :
  flag rx = fl_i \/ flag rx = fl_g -> needs "%" (source rx) = true ->
  matchAt rx idx s = Some r -> includes s "%" = true.
Proof.
  intros Hf Hn. unfold matchAt.
  destruct (m (flag rx) (source rx) s None accept) as [x |] eqn:E; [| discriminate].
  intros _. apply (needs_reads (flag rx) "%" (source rx)) in E; auto.
  intros a. now apply percent_only.
Qed.

Lemma execFrom_percent (rx : regex) (idx : nat) (s : string) :
  flag rx = fl_i \/ flag rx = fl_g -> needs "%" (source rx) = true ->
  includes s "%" = false -> execFrom rx idx s = None.
Proof.
  intros Hf Hn. revert idx.
  induction s as [| a s IH]; intros idx Hs; cbn [execFrom].
  - destruct (matchAt rx idx "") eqn:E; [| reflexivity].
    apply matchAt_percent in E; auto. congruence.
  - destruct (matchAt rx idx (String a s)) eqn:E.
    + apply matchAt_percent in E; auto. congruence.
    + apply IH. now apply includes_tail in Hs.
Qed.

Lemma matchAll_percent (rx : regex) (s : string) :
  flag rx = fl_i \/ flag rx = fl_g -> needs "%" (source rx) = true ->
  includes s "%" = false -> forall skip, matchAll rx skip s = [].
Proof.
  intros Hf Hn.
  induction s as [| a s IH]; intros Hs skip.
  - destruct skip; cbn [matchAll]; [| reflexivity].
    destruct (matchAt rx 0 "") eqn:E; [| reflexivity].
    apply matchAt_percent in E; auto. congruence.
  - assert (Hs' := includes_tail _ _ _ Hs).
    destruct skip; cbn [matchAll]; [| now apply IH].
    destruct (matchAt rx 0 (String a s)) eqn:E.
    + apply matchAt_percent in E; auto. congruence.
    + now apply IH.
Qed.

Lemma js_match_percent (rx : regex) (s : string) :
  flag rx = fl_i \/ flag rx = fl_g -> needs "%" (source rx) = true ->
  includes s "%" = false -> js_match s rx = None.
Proof.
  intros Hf Hn Hs. unfold js_match. destruct (global (flag rx)).
  - now rewrite matchAll_percent.
  - unfold exec. now rewrite execFrom_percent.
Qed.

(** None of the four patterns matches a text without a percent sign, so the
    answer for it is the keyword tier. *)
Lemma extractMatchScore_no_percent (t : string) :
  includes t "%" = false -> extractMatchScore t = keywordScore t.
Proof.
  intros Hs. unfold extractMatchScore. rewrite tryPatterns_none; [reflexivity |].
  intros p Hin. unfold tryPattern. rewrite js_match_percent; auto.
  - cbn in Hin. intuition (subst p; auto).
  - cbn in Hin. intuition (subst p; reflexivity).
Qed.


(** * Further properties *)

(** ** File intake *)

Lemma validFile_checks (f : File) :
  validFile f
  <-> String.eqb (type f) "application/pdf" = true
      /\ (5 * 1024 * 1024 <? size f)%N = false.
Proof.
  unfold validFile. rewrite String.eqb_eq, N.ltb_ge. change (5 * 1024 * 1024)%N
    with 5242880%N. tauto.
Qed.

Lemma validFile_dec (f : File) : validFile f \/ ~ validFile f.
Proof.
  rewrite validFile_checks.
  destruct (String.eqb (type f) "application/pdf");
    destruct (5 * 1024 * 1024 <? size f)%N; intuition discriminate.
Qed.

Lemma handleFileChange_file (f : File) (st : State) :
  (validFile f -> file (handleFileChange f st) = Some f)
  /\ (~ validFile f -> file (handleFileChange f st) = file st).
Proof.
  rewrite validFile_checks. unfold handleFileChange.
  destruct (String.eqb (type f) "application/pdf");
    destruct (5 * 1024 * 1024 <? size f)%N; cbn;
    split; intros; try reflexivity; intuition discriminate.
Qed.

(** X1: [handleFileChange] leaves no error exactly for a PDF of at most
    5,242,880 bytes, the limit included; such a file replaces the stored
    one, any other leaves the stored one in place. *)
Theorem handleFileChange_accepts_iff (f : File) (st : State) :
  (error (handleFileChange f st) = None <-> validFile f)
  /\ (validFile f -> file (handleFileChange f st) = Some f)
  /\ (~ validFile f -> file (handleFileChange f st) = file st).
Proof.
  rewrite validFile_checks. unfold handleFileChange.
  destruct (String.eqb (type f) "application/pdf");
    destruct (5 * 1024 * 1024 <? size f)%N; cbn;
    repeat split; intros; try reflexivity; try discriminate;
    intuition discriminate.
Qed.

(** X2: a drop and a choice in the file dialog run the same validation on the
    first file and ignore the others; the drop also lowers [dragActive]. *)
Theorem handleDrop_as_browse (f : File) (more more' : list File) (st : State) :
  handleDrop (f :: more) st
  = setDragActive false (onFileInputChange (f :: more') st)
  /\ handleDrop [] st = setDragActive false st
  /\ onFileInputChange [] st = st.
Proof.
  split; [| split; reflexivity].
  cbn [handleDrop onFileInputChange]. unfold handleFileChange.
  destruct (negb (String.eqb (type f) "application/pdf")); [reflexivity |].
  destruct (5 * 1024 * 1024 <? size f)%N; reflexivity.
Qed.

(** ** Whole runs *)

Lemma handleFileChange_atRest (f : File) (st : State) :
  atRest st -> atRest (handleFileChange f st).
Proof.
  intros (Hf & Hl & Hr).
  destruct (handleFileChange_file f st) as (Hyes & Hno).
  assert (Hothers : isLoading (handleFileChange f st) = isLoading st
                    /\ results (handleFileChange f st) = results st).
  { unfold handleFileChange.
    destruct (negb (String.eqb (type f) "application/pdf")); [now split |].
    destruct (5 * 1024 * 1024 <? size f)%N; now split. }
  destruct Hothers as (El & Er).
  split; [| split].
  - intros g Hg. destruct (validFile_dec f) as [Hv | Hv].
    + rewrite (Hyes Hv) in Hg. inversion Hg; subst. exact Hv.
    + rewrite (Hno Hv) in Hg. now apply Hf.
  - now rewrite El.
  - rewrite Er. exact Hr.
Qed.

(** Every path of [handleSubmit]. *)
Lemma handleSubmit_cases (net : FetchOutcome) (st : State) :
  (exists msg, spec_violation st = Some msg
               /\ handleSubmit net st = (setError (Some msg) st, []))
  \/ (exists f, spec_violation st = None /\ file st = Some f
       /\ let st1 := setResults None (setError None (setIsLoading true st)) in
          let request := Fetch (API_BASE_URL ++ "/api/analyze") f (jobDescription st) in
          (exists r, tryBody net = inr r
             /\ handleSubmit net st
                = (setIsLoading false (setResults (Some r) st1),
                   [request; ScrollToResults 100]))
          \/ (exists message, tryBody net = inl message
                /\ handleSubmit net st
                   = (setIsLoading false (catchBlock message st1), [request]))).
Proof.
  destruct (spec_violation st) as [msg |] eqn:Hv.
  - left. exists msg. split; [reflexivity |].
    unfold spec_violation in Hv. unfold handleSubmit.
    destruct (file st) as [f |]; [| now inversion Hv].
    rewrite eqb_empty_length.
    destruct (String.length (trim (jobDescription st)) =? 0)%nat;
      [now inversion Hv |].
    destruct (String.length (trim (jobDescription st)) <? 20)%nat;
      [now inversion Hv |].
    destruct (apiStatus st); try discriminate. now inversion Hv.
  - right. destruct (handleSubmit_valid net st Hv) as (f & Hf & E).
    exists f. split; [reflexivity |]. split; [exact Hf |]. cbv zeta in *.
    destruct (tryBody net) as [message | r].
    + right. exists message. auto.
    + left. exists r. auto.
Qed.

Lemma catchBlock_fields (message : string) (st : State) :
  file (catchBlock message st) = file st
  /\ jobDescription (catchBlock message st) = jobDescription st
  /\ isLoading (catchBlock message st) = isLoading st
  /\ results (catchBlock message st) = results st
  /\ dragActive (catchBlock message st) = dragActive st
  /\ (exists m, error (catchBlock message st) = Some m)
  /\ (apiStatus (catchBlock message st) = apiStatus st
      \/ apiStatus (catchBlock message st) = api_error).
Proof.
  unfold catchBlock. destruct (includes message "Failed to fetch"); cbn;
    repeat split; eauto.
Qed.

Lemma tryBody_parsed (net : FetchOutcome) (r : Results) :
  tryBody net = inr r -> analysis r = parseAnalysisResult (rawAnalysis r).
Proof.
  unfold tryBody. destruct net as [message | ok status data]; [discriminate |].
  destruct (negb ok); [discriminate |].
  destruct (negb (success data)); [discriminate |].
  destruct (result data) as [text |]; [| discriminate].
  intros E. inversion E; subst. reflexivity.
Qed.

Lemma handleSubmit_atRest (net : FetchOutcome) (st : State) :
  atRest st -> atRest (fst (handleSubmit net st)).
Proof.
  intros (Hf & Hl & Hr).
  destruct (handleSubmit_cases net st)
    as [(msg & _ & ->) | (f & _ & _ & [(r & Hb & ->) | (message & _ & ->)])];
    cbn [fst].
  - split; [exact Hf | split; [exact Hl | exact Hr]].
  - split; [exact Hf | split; [reflexivity |]].
    cbn. intros r' E. inversion E; subst. now apply (tryBody_parsed net).
  - destruct (catchBlock_fields message
                (setResults None (setError None (setIsLoading true st))))
      as (Ef & _ & _ & Er & _).
    split; [| split; [reflexivity |]].
    + cbn [file setIsLoading]. rewrite Ef. exact Hf.
    + cbn [results setIsLoading]. rewrite Er. cbn. discriminate.
Qed.

Lemma appStep_atRest (e : AppEvent) (st : State) :
  atRest st -> atRest (fst (appStep e st)).
Proof.
  intros H. destruct e as [o | ty | files | files | text | net]; cbn [appStep fst].
  - destruct o as [| []]; exact H.
  - unfold handleDrag.
    repeat match goal with |- context [if ?b then _ else _] => destruct b end;
      exact H.
  - destruct files as [| f more]; cbn [handleDrop]; [exact H |].
    apply handleFileChange_atRest. exact H.
  - destruct files as [| f more]; cbn [onFileInputChange]; [exact H |].
    now apply handleFileChange_atRest.
  - exact H.
  - now apply handleSubmit_atRest.
Qed.

Lemma appRun_cons (e : AppEvent) (es : list AppEvent) (st : State) :
  appRun (e :: es) st
  = (fst (appRun es (fst (appStep e st))),
     (snd (appStep e st) ++ snd (appRun es (fst (appStep e st))))%list).
Proof.
  cbn [appRun]. destruct (appStep e st) as [st1 out1]. cbn [fst snd].
  destruct (appRun es st1) as [st2 out2]. reflexivity.
Qed.

Lemma appRun_atRest (es : list AppEvent) (st : State) :
  atRest st -> atRest (fst (appRun es st)).
Proof.
  revert st. induction es as [| e es IH]; intros st H; [exact H |].
  rewrite appRun_cons. cbn [fst]. apply IH. now apply appStep_atRest.
Qed.

Lemma initialState_atRest : atRest initialState.
Proof. repeat split; cbn; intros; discriminate. Qed.

Lemma spec_violation_none (st : State) :
  spec_violation st = None ->
  (20 <= String.length (trim (jobDescription st)))%nat
  /\ apiStatus st <> api_error.
Proof.
  unfold spec_violation. destruct (file st); [| discriminate].
  destruct (String.length (trim (jobDescription st)) =? 0)%nat; [discriminate |].
  destruct (String.length (trim (jobDescription st)) <? 20)%nat eqn:E;
    [discriminate |].
  apply Nat.ltb_ge in E.
  destruct (apiStatus st); intros H; try discriminate; split; auto; discriminate.
Qed.

(** X3: the file that is stored, after any events, is a PDF of at most
    5,242,880 bytes. *)
Theorem stored_file_is_valid (es : list AppEvent) (f : File) :
  file (fst (appRun es initialState)) = Some f -> validFile f.
Proof.
  intros H.
  destruct (appRun_atRest es initialState initialState_atRest) as (Hf & _).
  now apply Hf.
Qed.

Lemma stored_file_is_valid_witness :
  validFile {| name := "cv.pdf"; type := "application/pdf"; size := 5242880 |}.
Proof.
  apply (stored_file_is_valid
           [ Dropped [{| name := "cv.pdf"; type := "application/pdf"; size := 5242880 |}];
             Browsed [{| name := "big.pdf"; type := "application/pdf"; size := 5242881 |}];
             Dropped [{| name := "cv.txt"; type := "text/plain"; size := 10 |}] ]).
  reflexivity.
Defined.

(** X4: when a handler has run to its end the loading flag is down, whatever
    the events were and however the requests ended. *)
Theorem loading_is_off_at_rest (es : list AppEvent) :
  isLoading (fst (appRun es initialState)) = false.
Proof.
  now destruct (appRun_atRest es initialState initialState_atRest) as (_ & Hl & _).
Qed.

(** What an effect of the component looks like. *)
Lemma appStep_effects (e : AppEvent) (st : State) (x : Effect) :
  atRest st -> In x (snd (appStep e st)) ->
  match x with
  | HealthFetch url => url = (API_BASE_URL ++ "/api/health")%string
  | Fetch url f d =>
      url = (API_BASE_URL ++ "/api/analyze")%string
      /\ validFile f /\ (20 <= String.length (trim d))%nat
  | ScrollToResults delay => delay = 100%N
  end.
Proof.
  intros (Hf & _) Hin.
  destruct e as [o | ty | files | files | text | net]; cbn [appStep snd] in Hin;
    try contradiction.
  - destruct Hin as [<- | []]. reflexivity.
  - destruct (handleSubmit_cases net st)
      as [(msg & _ & E) | (g & Hv & Hg & [(r & _ & E) | (message & _ & E)])];
      rewrite E in Hin; cbn [snd In] in Hin.
    + contradiction.
    + destruct Hin as [<- | [<- | []]]; [| reflexivity].
      split; [reflexivity |]. split; [now apply Hf |].
      now apply spec_violation_none.
    + destruct Hin as [<- | []].
      split; [reflexivity |]. split; [now apply Hf |].
      now apply spec_violation_none.
Qed.

Lemma appRun_effects (es : list AppEvent) (st : State) (x : Effect) :
  atRest st -> In x (snd (appRun es st)) ->
  match x with
  | HealthFetch url => url = (API_BASE_URL ++ "/api/health")%string
  | Fetch url f d =>
      url = (API_BASE_URL ++ "/api/analyze")%string
      /\ validFile f /\ (20 <= String.length (trim d))%nat
  | ScrollToResults delay => delay = 100%N
  end.
Proof.
  revert st. induction es as [| e es IH]; intros st H Hin; [contradiction |].
  rewrite appRun_cons in Hin. cbn [snd] in Hin.
  apply in_app_or in Hin as [Hin | Hin].
  - now apply (appStep_effects e st).
  - apply (IH (fst (appStep e st))); [now apply appStep_atRest | exact Hin].
Qed.



Lemma appRun_app (es1 es2 : list AppEvent) (st : State) :
  fst (appRun (es1 ++ es2) st) = fst (appRun es2 (fst (appRun es1 st))).
Proof.
  revert st. induction es1 as [| e es1 IH]; intros st; [reflexivity |].
  cbn [app]. rewrite !appRun_cons. cbn [fst]. apply IH.
Qed.

Lemma handleFileChange_status (f : File) (st : State) :
  apiStatus (handleFileChange f st) = apiStatus st.
Proof.
  unfold handleFileChange.
  destruct (negb (String.eqb (type f) "application/pdf")); [reflexivity |].
  destruct (5 * 1024 * 1024 <? size f)%N; reflexivity.
Qed.

Lemma handleSubmit_status (net : FetchOutcome) (st : State) :
  apiStatus (fst (handleSubmit net st)) = apiStatus st
  \/ apiStatus (fst (handleSubmit net st)) = api_error.
Proof.
  destruct (handleSubmit_cases net st)
    as [(msg & _ & ->) | (f & _ & _ & [(r & _ & ->) | (message & _ & ->)])];
    cbn [fst]; [now left | now left |].
  destruct (catchBlock_fields message
              (setResults None (setError None (setIsLoading true st))))
    as (_ & _ & _ & _ & _ & _ & Es).
  exact Es.
Qed.

(** X6: [handleSubmit] does not touch the file, the description or the drag
    flag, and the only change it makes to the status is to "error". *)
Theorem handleSubmit_frame (net : FetchOutcome) (st : State) :
  file (fst (handleSubmit net st)) = file st
  /\ jobDescription (fst (handleSubmit net st)) = jobDescription st
  /\ dragActive (fst (handleSubmit net st)) = dragActive st
  /\ (apiStatus (fst (handleSubmit net st)) = apiStatus st
      \/ apiStatus (fst (handleSubmit net st)) = api_error).
Proof.
  destruct (handleSubmit_cases net st)
    as [(msg & _ & ->) | (f & _ & _ & [(r & _ & ->) | (message & _ & ->)])];
    cbn [fst].
  - repeat split. now left.
  - repeat split. now left.
  - destruct (catchBlock_fields message
                (setResults None (setError None (setIsLoading true st))))
      as (Ef & Ej & _ & _ & Ed & _ & Es).
    cbn [file jobDescription dragActive apiStatus setIsLoading].
    rewrite Ef, Ej, Ed. repeat split. exact Es.
Qed.

Lemma appStep_not_checking (e : AppEvent) (st : State) :
  apiStatus st <> checking -> apiStatus (fst (appStep e st)) <> checking.
Proof.
  intros H. destruct e as [o | ty | files | files | text | net]; cbn [appStep fst].
  - destruct o as [| []]; discriminate.
  - unfold handleDrag.
    repeat match goal with |- context [if ?b then _ else _] => destruct b end;
      exact H.
  - destruct files as [| f more]; cbn [handleDrop]; [exact H |].
    now rewrite handleFileChange_status.
  - destruct files as [| f more]; cbn [onFileInputChange]; [exact H |].
    now rewrite handleFileChange_status.
  - exact H.
  - destruct (handleSubmit_status net st) as [E | E]; rewrite E;
      [exact H | discriminate].
Qed.

Lemma appRun_not_checking (es : list AppEvent) (st : State) :
  apiStatus st <> checking -> apiStatus (fst (appRun es st)) <> checking.
Proof.
  revert st. induction es as [| e es IH]; intros st H; [exact H |].
  rewrite appRun_cons. cbn [fst]. apply IH. now apply appStep_not_checking.
Qed.

(** X7: once a health check has ended, with whatever outcome, the status is
    never "checking" again: a retry goes from "error" straight to its
    result. *)
Theorem never_checking_again (es1 es2 : list AppEvent) (o : HealthOutcome)
    (st : State) :
  apiStatus (fst (appRun (es1 ++ HealthChecked o :: es2) st)) <> checking.
Proof.
  rewrite appRun_app, appRun_cons. cbn [fst]. apply appRun_not_checking.
  cbn [appStep fst]. destruct o as [| []]; discriminate.
Qed.

Lemma handleSubmit_outage (net : FetchOutcome) (st : State) :
  apiStatus st = api_error ->
  exists msg, handleSubmit net st = (setError (Some msg) st, []).
Proof.
  intros Hs.
  destruct (handleSubmit_cases net st) as [(msg & _ & E) | (f & Hv & _)].
  - now exists msg.
  - apply spec_violation_none in Hv as [_ Hv]. contradiction.
Qed.

Lemma appStep_outage (e : AppEvent) (st : State) :
  apiStatus st = api_error -> e <> HealthChecked (HealthResponds true) ->
  apiStatus (fst (appStep e st)) = api_error
  /\ snd (appStep e st) = healthRequests [e]
  /\ results (fst (appStep e st)) = results st.
Proof.
  intros Hs He. destruct e as [o | ty | files | files | text | net];
    cbn [appStep fst snd healthRequests flat_map app].
  - destruct o as [| []]; try contradiction; repeat split.
  - unfold handleDrag.
    repeat match goal with |- context [if ?b then _ else _] => destruct b end;
      repeat split; exact Hs.
  - destruct files as [| f more]; cbn [handleDrop]; [now repeat split |].
    rewrite handleFileChange_status. split; [exact Hs | split; [reflexivity |]].
    unfold handleFileChange.
    destruct (negb (String.eqb (type f) "application/pdf")); [reflexivity |].
    destruct (5 * 1024 * 1024 <? size f)%N; reflexivity.
  - destruct files as [| f more]; cbn [onFileInputChange]; [now repeat split |].
    rewrite handleFileChange_status. split; [exact Hs | split; [reflexivity |]].
    unfold handleFileChange.
    destruct (negb (String.eqb (type f) "application/pdf")); [reflexivity |].
    destruct (5 * 1024 * 1024 <? size f)%N; reflexivity.
  - now repeat split.
  - destruct (handleSubmit_outage net st Hs) as (msg & ->). now repeat split.
Qed.

(** X8: while the status is "error" and no health check gets an ok response,
    the status stays "error", the submissions send nothing however often
    the form is submitted - the only requests of the run are the GETs of its
    health checks - and the results on screen stay as they are. *)
Theorem outage_persists (es : list AppEvent) (st : State) :
  apiStatus st = api_error -> noHealthyCheck es ->
  apiStatus (fst (appRun es st)) = api_error
  /\ snd (appRun es st) = healthRequests es
  /\ results (fst (appRun es st)) = results st.
Proof.
  revert st. induction es as [| e es IH]; intros st Hs Hn; [now repeat split |].
  rewrite appRun_cons. cbn [fst snd].
  destruct (appStep_outage e st Hs (Hn e (or_introl eq_refl))) as (E1 & E2 & E3).
  destruct (IH (fst (appStep e st)) E1) as (F1 & F2 & F3).
  { intros e' He'. apply Hn. now right. }
  rewrite E2, F2, F3, E3. split; [exact F1 | split; [| reflexivity]].
  cbn [healthRequests flat_map]. now rewrite app_nil_r.
Qed.

Lemma outage_persists_witness :
  snd (appRun [ Typed "Senior engineer with ten years of experience";
                Submitted (successResponse (Some 92%Z) "<h2>Skills</h2>ok");
                HealthChecked HealthRejects;
                Submitted (successResponse None "fine") ]
         (checkApiHealth (HealthResponds false) sampleState))
  = [HealthFetch "https://skillsync-ai-server.onrender.com/api/health"].
Proof.
  apply (outage_persists
           [ Typed "Senior engineer with ten years of experience";
             Submitted (successResponse (Some 92%Z) "<h2>Skills</h2>ok");
             HealthChecked HealthRejects;
             Submitted (successResponse None "fine") ]
           (checkApiHealth (HealthResponds false) sampleState)).
  - reflexivity.
  - intros e He. cbn [In] in He.
    repeat (destruct He as [<- | He]; [discriminate |]). contradiction.
Defined.

(** ** Failed requests *)

(** X9: a submission that passed validation and then failed, for whatever
    reason, leaves no results on screen, even when an earlier analysis was
    shown, and shows an error; exactly one request went out and loading is
    off. *)
Theorem failed_submit_discards_results
    (net : FetchOutcome) (st : State) (message : string) :
  spec_violation st = None -> tryBody net = inl message ->
  results (fst (handleSubmit net st)) = None
  /\ (exists m, error (fst (handleSubmit net st)) = Some m)
  /\ isLoading (fst (handleSubmit net st)) = false
  /\ exists f, file st = Some f
       /\ snd (handleSubmit net st)
          = [Fetch (API_BASE_URL ++ "/api/analyze") f (jobDescription st)].
Proof.
  intros Hv Hb. destruct (handleSubmit_valid net st Hv) as (f & Hf & ->).
  cbv zeta. rewrite Hb. cbn [fst snd].
  destruct (catchBlock_fields message
              (setResults None (setError None (setIsLoading true st))))
    as (_ & _ & _ & Er & _ & Ee & _).
  cbn [results error isLoading setIsLoading]. rewrite Er.
  split; [reflexivity |]. split; [exact Ee |]. split; [reflexivity |].
  exists f. auto.
Qed.

Lemma failed_submit_discards_results_witness :
  let shown := fst (handleSubmit
                      (successResponse (Some 92%Z) "<h2>Skills</h2>Good") sampleState) in
  results shown <> None
  /\ results (fst (handleSubmit (Responds false 500
                {| success := false; d_error := None; result := None;
                   d_matchScore := None; d_analyzedAt := None |}) shown)) = None.
Proof.
  intros shown. split; [discriminate |].
  apply (failed_submit_discards_results _ shown "HTTP error! status: 500");
    reflexivity.
Defined.

(** X10: when the server reports a failure, by a non-ok status or by
    [success: false], with a non-empty error text free of "Failed to fetch",
    that text is the error shown and the status is left alone; without an
    error text a response with an ok status shows "Analysis failed". *)
Theorem server_message_is_shown
    (st : State) (ok : bool) (status : N) (data : Data) :
  spec_violation st = None -> ok && success data = false ->
  let st' := fst (handleSubmit (Responds ok status data) st) in
  (forall e, d_error data = Some e -> e <> "" ->
             includes e "Failed to fetch" = false ->
             error st' = Some e /\ apiStatus st' = apiStatus st)
  /\ (d_error data = None -> ok = true ->
      error st' = Some "Analysis failed" /\ apiStatus st' = apiStatus st).
Proof.
  intros Hv Hfail st'. subst st'.
  destruct (handleSubmit_valid (Responds ok status data) st Hv) as (f & _ & ->).
  cbv zeta. split.
  - intros e He Hne Hinc.
    assert (Hb : tryBody (Responds ok status data) = inl e).
    { unfold tryBody. rewrite He.
      destruct ok; cbn [negb andb] in *; [rewrite Hfail; cbn [negb] |];
        destruct e; try contradiction; reflexivity. }
    rewrite Hb. cbn [fst]. unfold catchBlock. rewrite Hinc. split; reflexivity.
  - intros He Hok. subst ok. cbn [andb] in Hfail.
    unfold tryBody. cbn [negb]. rewrite Hfail, He. cbn [negb orString fst].
    split; reflexivity.
Qed.

Lemma server_message_is_shown_witness :
  error (fst (handleSubmit
           (Responds false 422
              {| success := false; d_error := Some "Could not read the PDF";
                 result := None; d_matchScore := None; d_analyzedAt := None |})
           sampleState))
  = Some "Could not read the PDF".
Proof.
  apply (server_message_is_shown sampleState false 422
           {| success := false; d_error := Some "Could not read the PDF";
              result := None; d_matchScore := None; d_analyzedAt := None |});
    [reflexivity | reflexivity | reflexivity | discriminate | reflexivity].
Defined.

(** X11: a failure whose message holds "Failed to fetch", be it the rejection of
    [fetch] or an error text sent by the server, sets the status to "error"
    and shows the connection message; the submit button is then disabled and
    a further submission sends nothing. *)
Theorem fetch_failure_locks_submit
    (net net2 : FetchOutcome) (st : State) (message : string) :
  spec_violation st = None -> tryBody net = inl message ->
  includes message "Failed to fetch" = true ->
  let st' := fst (handleSubmit net st) in
  apiStatus st' = api_error
  /\ error st'
     = Some "Cannot connect to the backend server. Please ensure the server is running"
  /\ submitDisabled st' = true
  /\ snd (handleSubmit net2 st') = [].
Proof.
  intros Hv Hb Hinc st'.
  assert (Hs : apiStatus st' = api_error
               /\ error st' = Some "Cannot connect to the backend server. Please ensure the server is running").
  { subst st'. destruct (handleSubmit_valid net st Hv) as (f & _ & ->).
    cbv zeta. rewrite Hb. cbn [fst]. unfold catchBlock. rewrite Hinc.
    split; reflexivity. }
  destruct Hs as (Hs & He). split; [exact Hs |]. split; [exact He |]. split.
  - unfold submitDisabled. rewrite Hs. apply orb_true_r.
  - destruct (handleSubmit_outage net2 st' Hs) as (msg & ->). reflexivity.
Qed.

Lemma fetch_failure_locks_submit_witness :
  apiStatus (fst (handleSubmit
     (Responds true 200
        {| success := false; d_error := Some "Upstream said: Failed to fetch model";
           result := None; d_matchScore := None; d_analyzedAt := None |})
     sampleState)) = api_error.
Proof.
  apply (fetch_failure_locks_submit
           (Responds true 200
              {| success := false; d_error := Some "Upstream said: Failed to fetch model";
                 result := None; d_matchScore := None; d_analyzedAt := None |})
           (Rejects "") sampleState "Upstream said: Failed to fetch model");
    reflexivity.
Defined.

(** ** The length hint and the submit check *)

Lemma length_trimStart_le (s : string) :
  (String.length (trimStart s) <= String.length s)%nat.
Proof.
  induction s as [| a s IH]; cbn; [lia |].
  destruct (isWhiteSpace a); cbn; lia.
Qed.

Lemma length_trimEnd_le (s : string) :
  (String.length (trimEnd s) <= String.length s)%nat.
Proof.
  induction s as [| a s IH]; cbn; [lia |].
  destruct (trimEnd s); [destruct (isWhiteSpace a) |]; cbn in *; lia.
Qed.

Lemma length_trim_le (s : string) :
  (String.length (trim s) <= String.length s)%nat.
Proof.
  unfold trim. etransitivity; [apply length_trimEnd_le | apply length_trimStart_le].
Qed.

(** X12: whenever the hint "Minimum 20 characters required" is on screen, a
    submission is refused before any request, with one of the three messages
    of the file and description checks. *)
Theorem length_hint_means_refusal (net : FetchOutcome) (st : State) :
  showsLengthHint st = true ->
  snd (handleSubmit net st) = []
  /\ exists msg,
       fst (handleSubmit net st) = setError (Some msg) st
       /\ In msg [ "Please upload your resume";
                   "Please enter the job description";
                   "Job description must be at least 20 characters long" ].
Proof.
  unfold showsLengthHint. intros H. apply andb_prop in H as [Hlt _].
  apply Nat.ltb_lt in Hlt. assert (Hle := length_trim_le (jobDescription st)).
  unfold handleSubmit. destruct (file st) as [f |].
  - rewrite eqb_empty_length.
    destruct (String.length (trim (jobDescription st)) =? 0)%nat.
    + split; [reflexivity |]. eexists. split; [reflexivity |]. cbn. auto.
    + replace (String.length (trim (jobDescription st)) <? 20)%nat with true
        by (symmetry; apply Nat.ltb_lt; lia).
      split; [reflexivity |]. eexists. split; [reflexivity |]. cbn. auto.
  - split; [reflexivity |]. eexists. split; [reflexivity |]. cbn. auto.
Qed.

Lemma length_hint_means_refusal_witness :
  snd (handleSubmit (successResponse (Some 92%Z) "ok")
         (setJobDescription "Too short" sampleState)) = [].
Proof.
  apply (length_hint_means_refusal (successResponse (Some 92%Z) "ok")
           (setJobDescription "Too short" sampleState)).
  reflexivity.
Defined.

(** ** The report without tags *)

Lemma greedy_to_gt (s : string) :
  greedy_star (fun c => negb (Ascii.eqb c ">")) s
    (fun r =>
       match r with
       | String b r' => if Ascii.eqb b ">" then Some (r', None) else None
       | EmptyString => None
       end)
  = option_map (fun r => (r, @None string)) (afterGt s).
Proof.
  induction s as [| a s IH]; [reflexivity |].
  cbn [greedy_star afterGt]. destruct (Ascii.eqb a ">"); cbn [negb].
  - reflexivity.
  - rewrite IH. now destruct (afterGt s).
Qed.

(** A tag starts at a [<] that some [>] follows, and ends at the first. *)
Lemma tagAt_eq (s : string) :
  tagAt s = match s with
            | String a s' => if Ascii.eqb a "<" then afterGt s' else None
            | EmptyString => None
            end.
Proof.
  destruct s as [| a s]; [reflexivity |]. unfold tagAt.
  destruct (Ascii.eqb a "<"); [| reflexivity].
  rewrite greedy_to_gt. now destruct (afterGt s).
Qed.

Lemma afterGt_split (s rest : string) :
  afterGt s = Some rest ->
  drop (String.length s - String.length rest) s = rest
  /\ (String.length rest < String.length s)%nat.
Proof.
  induction s as [| a s IH]; cbn [afterGt]; [discriminate |].
  destruct (Ascii.eqb a ">").
  - intros E. inversion E; subst. cbn [String.length].
    replace (S (String.length rest) - String.length rest)%nat with 1%nat by lia.
    split; [reflexivity | lia].
  - intros E. destruct (IH E) as (Hd & Hl). cbn [String.length].
    replace (S (String.length s) - String.length rest)%nat
      with (S (String.length s - String.length rest)) by lia.
    split; [exact Hd | lia].
Qed.

Lemma stripTagsFrom_skip (n : nat) (s : string) :
  stripTagsFrom n s = stripTagsFrom 0 (drop n s).
Proof.
  revert s. induction n as [| n IH]; intros s; [now destruct s |].
  destruct s as [| a s]; [reflexivity |]. cbn [stripTagsFrom drop]. apply IH.
Qed.

(** One step of the replacement: a tag at the head is dropped whole. *)
Lemma stripTags_step (a : ascii) (s : string) :
  stripTags (String a s)
  = match tagAt (String a s) with
    | Some rest => stripTags rest
    | None => String a (stripTags s)
    end.
Proof.
  unfold stripTags. cbn [stripTagsFrom].
  destruct (tagAt (String a s)) as [rest |] eqn:E; [| reflexivity].
  rewrite stripTagsFrom_skip. f_equal.
  rewrite tagAt_eq in E. destruct (Ascii.eqb a "<"); [| discriminate].
  apply afterGt_split in E as (Hd & Hl). cbn [String.length].
  replace (S (String.length s) - String.length rest - 1)%nat
    with (String.length s - String.length rest)%nat by lia.
  exact Hd.
Qed.

Lemma tagAt_shorter (s rest : string) :
  tagAt s = Some rest -> (String.length rest < String.length s)%nat.
Proof.
  rewrite tagAt_eq. destruct s as [| a s]; [discriminate |].
  destruct (Ascii.eqb a "<"); [| discriminate].
  intros E. apply afterGt_split in E as (_ & Hl). cbn [String.length]. lia.
Qed.

Lemma stripTags_no_gt (s : string) : afterGt s = None -> stripTags s = s.
Proof.
  induction s as [| a s IH]; [reflexivity |]. cbn [afterGt].
  destruct (Ascii.eqb a ">"); [discriminate |]. intros E.
  rewrite stripTags_step, tagAt_eq, E, (IH E).
  now destruct (Ascii.eqb a "<").
Qed.

Lemma stripTags_no_tag_len (n : nat) :
  forall s u v, (String.length s <= n)%nat ->
                stripTags s = (u ++ v)%string -> tagAt v = None.
Proof.
  induction n as [| n IH]; intros s u v Hn E.
  - destruct s; [| cbn in Hn; lia]. cbn in E.
    destruct u; [cbn in E; now subst v | discriminate].
  - destruct s as [| a s].
    + cbn in E. destruct u; [cbn in E; now subst v | discriminate].
    + rewrite stripTags_step in E.
      destruct (tagAt (String a s)) as [rest |] eqn:Ht.
      * apply (IH rest u v); [| exact E].
        apply tagAt_shorter in Ht. cbn [String.length] in *. lia.
      * destruct u as [| b u].
        -- cbn [append] in E. subst v. rewrite tagAt_eq in Ht |- *.
           destruct (Ascii.eqb a "<"); [| reflexivity].
           now rewrite (stripTags_no_gt s Ht).
        -- cbn [append] in E. inversion E; subst.
           apply (IH s u v); [cbn [String.length] in Hn; lia | assumption].
Qed.

(** X13: nowhere in the stripped text does the tag pattern match: a [<] that is
    left has no [>] after it. *)
Theorem stripTags_leaves_no_tag (s u v : string) :
  stripTags s = (u ++ v)%string -> tagAt v = None.
Proof. apply (stripTags_no_tag_len (String.length s)). lia. Qed.

Lemma stripTags_leaves_no_tag_witness :
  stripTags "a <b>bold</b> 1 < 2 <<x>> <open" = "a bold 1 > <open"
  /\ tagAt "<open" = None.
Proof.
  split; [reflexivity |].
  apply (stripTags_leaves_no_tag "a <b>bold</b> 1 < 2 <<x>> <open" "a bold 1 > ").
  reflexivity.
Defined.

Lemma stripTags_fixed (t : string) :
  (forall u v, t = (u ++ v)%string -> tagAt v = None) -> stripTags t = t.
Proof.
  induction t as [| a t IH]; intros H; [reflexivity |].
  rewrite stripTags_step, (H "" (String a t) eq_refl). f_equal.
  apply IH. intros u v E. apply (H (String a u) v). cbn [append]. now f_equal.
Qed.

(** X14: stripping twice is stripping once. *)
Theorem stripTags_idempotent (s : string) :
  stripTags (stripTags s) = stripTags s.
Proof.
  apply stripTags_fixed. intros u v E.
  now apply (stripTags_no_tag_len (String.length s) s u v).
Qed.

Lemma afterGt_includes (s : string) :
  includes s ">" = false -> afterGt s = None.
Proof.
  induction s as [| a s IH]; [reflexivity |]. cbn [includes startsWith afterGt].
  rewrite Ascii.eqb_sym. destruct (Ascii.eqb a ">"); cbn [andb orb];
    [discriminate | exact IH].
Qed.

Lemma stripTags_no_lt (s : string) : includes s "<" = false -> stripTags s = s.
Proof.
  induction s as [| a s IH]; [reflexivity |]. cbn [includes startsWith].
  rewrite Ascii.eqb_sym. intros H. rewrite stripTags_step, tagAt_eq.
  destruct (Ascii.eqb a "<"); cbn [andb orb] in H; [discriminate |].
  now rewrite (IH H).
Qed.

(** X15: a text that lacks [<], or lacks [>], passes through unchanged. *)
Theorem stripTags_plain_text (s : string) :
  includes s "<" = false \/ includes s ">" = false -> stripTags s = s.
Proof.
  intros [H | H]; [now apply stripTags_no_lt |].
  now apply stripTags_no_gt, afterGt_includes.
Qed.

Lemma stripTags_plain_text_witness :
  stripTags "score > 80 means strong" = "score > 80 means strong".
Proof.
  apply (stripTags_plain_text "score > 80 means strong"). left. reflexivity.
Defined.

(** ** Letter case *)

Section LetterCase.

Lemma lower_table :
  forallb (fun a =>
    Ascii.eqb (lowerChar (lowerChar a)) (lowerChar a)
    && Bool.eqb (isWhiteSpace (lowerChar a)) (isWhiteSpace a)
    && Bool.eqb (Ascii.eqb (lowerChar a) "-") (Ascii.eqb a "-")
    && Bool.eqb (Ascii.eqb (lowerChar a) "+") (Ascii.eqb a "+")
    && Bool.eqb (Ascii.eqb (lowerChar a) "0") (Ascii.eqb a "0")
    && Bool.eqb (Ascii.eqb (lowerChar a) "x" || Ascii.eqb (lowerChar a) "X")
                (Ascii.eqb a "x" || Ascii.eqb a "X")
    && match digitValue 10 (lowerChar a), digitValue 10 a with
       | Some x, Some y => (x =? y)%Z
       | None, None => true
       | _, _ => false
       end
    && match digitValue 16 (lowerChar a), digitValue 16 a with
       | Some x, Some y => (x =? y)%Z
       | None, None => true
       | _, _ => false
       end) all_ascii = true.
Proof. vm_compute. reflexivity. Qed.

Lemma lower_facts (a : ascii) :
  lowerChar (lowerChar a) = lowerChar a
  /\ isWhiteSpace (lowerChar a) = isWhiteSpace a
  /\ Ascii.eqb (lowerChar a) "-" = Ascii.eqb a "-"
  /\ Ascii.eqb (lowerChar a) "+" = Ascii.eqb a "+"
  /\ Ascii.eqb (lowerChar a) "0" = Ascii.eqb a "0"
  /\ (Ascii.eqb (lowerChar a) "x" || Ascii.eqb (lowerChar a) "X")
     = (Ascii.eqb a "x" || Ascii.eqb a "X")
  /\ digitValue 10 (lowerChar a) = digitValue 10 a
  /\ digitValue 16 (lowerChar a) = digitValue 16 a.
Proof.
  lookup lower_table a.
  repeat (apply andb_prop in T as [T ?]).
  repeat match goal with
         | H : Ascii.eqb _ _ = true |- _ => apply Ascii.eqb_eq in H
         | H : Bool.eqb _ _ = true |- _ => apply Bool.eqb_prop in H
         end.
  repeat split; try assumption.
  - destruct (digitValue 10 (lowerChar a)), (digitValue 10 a);
      try discriminate; [| reflexivity].
    f_equal. now apply Z.eqb_eq.
  - destruct (digitValue 16 (lowerChar a)), (digitValue 16 a);
      try discriminate; [| reflexivity].
    f_equal. now apply Z.eqb_eq.
Qed.

Lemma toLowerCase_idem (s : string) : toLowerCase (toLowerCase s) = toLowerCase s.
Proof.
  induction s as [| a s IH]; [reflexivity |]. cbn [toLowerCase].
  now rewrite IH, (proj1 (lower_facts a)).
Qed.

Lemma length_lower (s : string) : String.length (toLowerCase s) = String.length s.
Proof. induction s as [| a s IH]; cbn; [reflexivity | now rewrite IH]. Qed.

Lemma clsCaseBlind_spec (f : flags) (c : cls) (a : ascii) :
  clsCaseBlind f c = true -> cls_match f c (lowerChar a) = cls_match f c a.
Proof.
  unfold clsCaseBlind. intros H. rewrite forallb_forall in H.
  now apply Bool.eqb_prop, H, all_ascii_in.
Qed.

Lemma lazy_star_lower (p : ascii -> bool) (k k' : string -> option mstate) :
  (forall a, p (lowerChar a) = p a) ->
  (forall s, k' (toLowerCase s) = option_map lowerState (k s)) ->
  forall s, lazy_star p (toLowerCase s) k' = option_map lowerState (lazy_star p s k).
Proof.
  intros Hp Hk. induction s as [| a s IH].
  - assert (H0 := Hk ""). cbn [toLowerCase] in H0.
    cbn [toLowerCase lazy_star]. rewrite H0. now destruct (k "").
  - assert (H0 := Hk (String a s)). cbn [toLowerCase] in H0.
    cbn [toLowerCase lazy_star]. rewrite H0.
    destruct (k (String a s)); [reflexivity |]. cbn [option_map].
    rewrite Hp. destruct (p a); [exact IH | reflexivity].
Qed.

Lemma greedy_star_lower (p : ascii -> bool) (k k' : string -> option mstate) :
  (forall a, p (lowerChar a) = p a) ->
  (forall s, k' (toLowerCase s) = option_map lowerState (k s)) ->
  forall s, greedy_star p (toLowerCase s) k' = option_map lowerState (greedy_star p s k).
Proof.
  intros Hp Hk. induction s as [| a s IH].
  - cbn [toLowerCase greedy_star]. apply (Hk "").
  - cbn [toLowerCase greedy_star]. rewrite Hp.
    change (String (lowerChar a) (toLowerCase s)) with (toLowerCase (String a s)).
    destruct (p a); [| apply Hk]. rewrite IH.
    destruct (greedy_star p s k); [reflexivity | apply Hk].
Qed.

Variable f : flags.

(** Matching the lowercased text goes the way of matching the text itself,
    when every class of the pattern is blind to case. *)
Lemma m_lower (r : re) :
  caseBlind f r = true ->
  forall s cap k k',
    (forall s0 cap0,
        k' (toLowerCase s0) (option_map toLowerCase cap0)
        = option_map lowerState (k s0 cap0)) ->
    m f r (toLowerCase s) (option_map toLowerCase cap) k'
    = option_map lowerState (m f r s cap k).
Proof.
  induction r as [| c | r1 IH1 r2 IH2 | r1 IH1 r2 IH2 | c | c | r1 IH1 | r1 IH1 |];
    cbn [caseBlind]; intros Hb s cap k k' Hk; cbn [m].
  - apply Hk.
  - destruct s as [| a s]; [reflexivity |]. cbn [toLowerCase].
    rewrite (clsCaseBlind_spec f c a Hb). destruct (cls_match f c a);
      [apply Hk | reflexivity].
  - apply andb_prop in Hb as [Hb1 Hb2]. apply (IH1 Hb1).
    intros s0 cap0. now apply (IH2 Hb2).
  - apply andb_prop in Hb as [Hb1 Hb2].
    rewrite (IH1 Hb1 s cap k k' Hk). destruct (m f r1 s cap k); [reflexivity |].
    now apply (IH2 Hb2).
  - apply lazy_star_lower; [intros a; now apply clsCaseBlind_spec |].
    intros s0. apply Hk.
  - apply greedy_star_lower; [intros a; now apply clsCaseBlind_spec |].
    intros s0. apply Hk.
  - apply (IH1 Hb). intros s0 cap0.
    rewrite !length_lower, <- toLowerCase_take.
    apply (Hk s0 (Some (take (String.length s - String.length s0) s))).
  - rewrite (IH1 Hb s cap (fun s' cap' => Some (s', cap'))
               (fun s' cap' => Some (s', cap'))); [| reflexivity].
    destruct (m f r1 s cap (fun s' cap' => Some (s', cap'))) as [[x c] |];
      [apply Hk | reflexivity].
  - destruct s; [apply (Hk "") | reflexivity].
Qed.

End LetterCase.

Section LetterCaseOfMatches.

Variable rx : regex.
Hypothesis Hblind : caseBlind (flag rx) (source rx) = true.

Lemma matchAt_lower (idx : nat) (s : string) :
  matchAt rx idx (toLowerCase s) = option_map lowerFound (matchAt rx idx s).
Proof.
  unfold matchAt.
  assert (H := m_lower (flag rx) (source rx) Hblind s None accept accept
                 (fun _ _ => eq_refl)).
  change (option_map toLowerCase None) with (@None string) in H. rewrite H.
  destruct (m (flag rx) (source rx) s None accept) as [[rest cap] |];
    [| reflexivity].
  cbn [option_map lowerState fst snd]. unfold lowerFound.
  cbn [index matched group1]. now rewrite !length_lower, toLowerCase_take.
Qed.

Lemma execFrom_lower (idx : nat) (s : string) :
  execFrom rx idx (toLowerCase s) = option_map lowerFound (execFrom rx idx s).
Proof.
  revert idx. induction s as [| a s IH]; intros idx.
  - assert (H := matchAt_lower idx ""). cbn [toLowerCase] in *.
    cbn [execFrom]. destruct (matchAt rx idx ""); [exact H | reflexivity].
  - assert (H := matchAt_lower idx (String a s)). cbn [toLowerCase] in *.
    cbn [execFrom]. rewrite H. destruct (matchAt rx idx (String a s));
      [reflexivity | apply IH].
Qed.

Lemma matchAll_lower (s : string) :
  forall skip,
    matchAll rx skip (toLowerCase s) = map toLowerCase (matchAll rx skip s).
Proof.
  induction s as [| a s IH]; intros skip.
  - destruct skip; [| reflexivity].
    assert (H := matchAt_lower 0 ""). cbn [toLowerCase] in *.
    cbn [matchAll]. destruct (matchAt rx 0 "") as [r |]; [| reflexivity].
    cbn [option_map map] in *. inversion H as [E]. unfold lowerFound in E.
    now rewrite E at 1.
  - destruct skip; [| cbn [toLowerCase matchAll]; apply IH].
    assert (H := matchAt_lower 0 (String a s)). cbn [toLowerCase] in *.
    cbn [matchAll]. rewrite H.
    destruct (matchAt rx 0 (String a s)) as [r |]; cbn [option_map map];
      [| apply IH].
    cbn [lowerFound matched]. now rewrite length_lower, IH.
Qed.

Lemma js_match_lower (s : string) :
  js_match (toLowerCase s) rx
  = option_map (map (option_map toLowerCase)) (js_match s rx).
Proof.
  unfold js_match. destruct (global (flag rx)).
  - rewrite matchAll_lower. destruct (matchAll rx 0 s); [reflexivity |].
    cbn [map option_map]. now rewrite !map_map.
  - unfold exec. rewrite execFrom_lower.
    now destruct (execFrom rx 0 s).
Qed.

End LetterCaseOfMatches.

Lemma at_index_lower (arr : list (option string)) (i : nat) :
  at_index (map (option_map toLowerCase) arr) i
  = option_map toLowerCase (at_index arr i).
Proof.
  unfold at_index. revert i. induction arr as [| v arr IH]; intros [| i];
    cbn; try reflexivity. apply IH.
Qed.

Lemma trimStart_lower (s : string) :
  trimStart (toLowerCase s) = toLowerCase (trimStart s).
Proof.
  induction s as [| a s IH]; [reflexivity |]. cbn [toLowerCase trimStart].
  destruct (lower_facts a) as (_ & -> & _).
  destruct (isWhiteSpace a); [exact IH | reflexivity].
Qed.

Lemma digitsPrefix_lower (radix : Z) (s : string) :
  radix = 10%Z \/ radix = 16%Z ->
  forall acc, digitsPrefix radix acc (toLowerCase s) = digitsPrefix radix acc s.
Proof.
  intros Hr. induction s as [| a s IH]; intros acc; [reflexivity |].
  cbn [toLowerCase digitsPrefix].
  assert (E : digitValue radix (lowerChar a) = digitValue radix a).
  { destruct (lower_facts a) as (_ & _ & _ & _ & _ & _ & E10 & E16).
    now destruct Hr; subst radix. }
  rewrite E. destruct (digitValue radix a); [apply IH | reflexivity].
Qed.

(** [parseDigits] with its pattern matching on the first two units spelled
    as tests. *)
Lemma parseDigits_tests (sign : Z) (s1 : string) :
  parseDigits sign s1
  = match s1 with
    | String a (String b r) =>
        if Ascii.eqb a "0" && (Ascii.eqb b "x" || Ascii.eqb b "X")
        then match digitsPrefix 16 None r with
             | Some v => Some (sign * v)%Z
             | None => None
             end
        else match digitsPrefix 10 None s1 with
             | Some v => Some (sign * v)%Z
             | None => None
             end
    | _ => match digitsPrefix 10 None s1 with
           | Some v => Some (sign * v)%Z
           | None => None
           end
    end.
Proof.
  unfold parseDigits. destruct s1 as [| a [| b r]]; [reflexivity | |].
  - destruct a as [[] [] [] [] [] [] [] []]; reflexivity.
  - destruct a as [[] [] [] [] [] [] [] []]; try reflexivity.
    destruct b as [[] [] [] [] [] [] [] []]; reflexivity.
Qed.

Lemma parseInt_tests (s : string) :
  parseInt (Some s)
  = match trimStart s with
    | String a r =>
        if Ascii.eqb a "-" then parseDigits (-1) r
        else if Ascii.eqb a "+" then parseDigits 1 r
        else parseDigits 1 (String a r)
    | EmptyString => parseDigits 1 EmptyString
    end.
Proof.
  unfold parseInt, parseDigits. cbn [ToString].
  destruct (trimStart s) as [| a r]; [reflexivity |].
  destruct a as [[] [] [] [] [] [] [] []]; reflexivity.
Qed.

Lemma parseDigits_lower (sign : Z) (s1 : string) :
  parseDigits sign (toLowerCase s1) = parseDigits sign s1.
Proof.
  rewrite !parseDigits_tests.
  destruct s1 as [| a [| b r]]; cbn [toLowerCase].
  - reflexivity.
  - rewrite <- (digitsPrefix_lower 10 (String a "") (or_introl eq_refl)).
    reflexivity.
  - destruct (lower_facts a) as (_ & _ & _ & _ & -> & _).
    destruct (lower_facts b) as (_ & _ & _ & _ & _ & -> & _).
    rewrite (digitsPrefix_lower 16 r (or_intror eq_refl)).
    rewrite <- (digitsPrefix_lower 10 (String a (String b r)) (or_introl eq_refl)).
    reflexivity.
Qed.

(** [parseInt] reads the same number from a text and from its lowercase. *)
Lemma parseInt_lower (v : option string) :
  parseInt (option_map toLowerCase v) = parseInt v.
Proof.
  destruct v as [s |]; [| reflexivity]. cbn [option_map].
  rewrite !parseInt_tests, trimStart_lower.
  destruct (trimStart s) as [| a r]; [reflexivity |]. cbn [toLowerCase].
  destruct (lower_facts a) as (_ & _ & -> & -> & _).
  destruct (Ascii.eqb a "-"); [apply parseDigits_lower |].
  destruct (Ascii.eqb a "+"); [apply parseDigits_lower |].
  apply (parseDigits_lower 1 (String a r)).
Qed.

Lemma tryPattern_lower (t : string) (p : regex) :
  caseBlind (flag p) (source p) = true ->
  tryPattern (toLowerCase t) p = tryPattern t p.
Proof.
  intros Hb. unfold tryPattern. rewrite (js_match_lower p Hb).
  destruct (js_match t p) as [mt |]; [| reflexivity]. cbn [option_map].
  now rewrite at_index_lower, parseInt_lower.
Qed.

Lemma extractMatchScore_lower (t : string) :
  extractMatchScore (toLowerCase t) = extractMatchScore t.
Proof.
  unfold extractMatchScore, patterns. cbn [tryPatterns].
  rewrite !tryPattern_lower by reflexivity.
  unfold keywordScore. now rewrite toLowerCase_idem.
Qed.

(** X16: two texts that differ only in letter case get the same score. *)
Theorem extractMatchScore_ignores_case (t1 t2 : string) :
  toLowerCase t1 = toLowerCase t2 ->
  extractMatchScore t1 = extractMatchScore t2.
Proof.
  intros E. now rewrite <- (extractMatchScore_lower t1), E, extractMatchScore_lower.
Qed.

Lemma extractMatchScore_ignores_case_witness :
  extractMatchScore "MATCH PERCENTAGE: 78% - STRONG"
  = extractMatchScore "match percentage: 78% - Strong".
Proof.
  apply (extractMatchScore_ignores_case "MATCH PERCENTAGE: 78% - STRONG"
           "match percentage: 78% - Strong").
  reflexivity.
Defined.

Lemma sectionOf_lower (word t : string) :
  caseBlind fl_is (source (pat_section word)) = true ->
  sectionOf (toLowerCase t) (pat_section word)
  = option_map toLowerCase (sectionOf t (pat_section word)).
Proof.
  intros Hb. unfold sectionOf. rewrite (js_match_lower (pat_section word) Hb).
  destruct (js_match t (pat_section word)) as [mt |]; [| reflexivity].
  cbn [option_map]. apply at_index_lower.
Qed.

(** X17: the sections of a lowercased text are the lowercased sections of the
    text: which headings are found, and where the sections are cut, does not
    depend on letter case. *)
Theorem parseAnalysisResult_ignores_case (t : string) :
  skills (parseAnalysisResult (toLowerCase t))
  = option_map toLowerCase (skills (parseAnalysisResult t))
  /\ experience (parseAnalysisResult (toLowerCase t))
     = option_map toLowerCase (experience (parseAnalysisResult t))
  /\ recommendations (parseAnalysisResult (toLowerCase t))
     = option_map toLowerCase (recommendations (parseAnalysisResult t)).
Proof.
  cbn [parseAnalysisResult skills experience recommendations].
  repeat split; apply sectionOf_lower; vm_compute; reflexivity.
Qed.

(** ** Texts without markup, texts without a percentage *)

Section NeededCharacter.

Variable rx : regex.
Variable c : ascii.
Hypothesis Honly : forall a, cls_match (flag rx) (CChar c) a = true -> a = c.
Hypothesis Hneeds : needs c (source rx) = true.

Lemma matchAt_needs (idx : nat) (s : string) :
  includes s (String c "") = false -> matchAt rx idx s = None.
Proof.
  intros Hs. unfold matchAt.
  destruct (m (flag rx) (source rx) s None accept) as [x |] eqn:E; [| reflexivity].
  apply (needs_reads (flag rx) c (source rx) Honly Hneeds) in E. congruence.
Qed.

Lemma execFrom_needs (s : string) :
  includes s (String c "") = false -> forall idx, execFrom rx idx s = None.
Proof.
  induction s as [| a s IH]; intros Hs idx; cbn [execFrom];
    rewrite (matchAt_needs idx _ Hs); [reflexivity |].
  apply IH. now apply includes_tail in Hs.
Qed.

End NeededCharacter.

Lemma lt_table :
  forallb (fun a => implb (cls_match fl_is (CChar "<") a) (Ascii.eqb a "<"))
    all_ascii = true.
Proof. vm_compute. reflexivity. Qed.

Lemma sectionOf_plain (word t : string) :
  includes t "<" = false -> sectionOf t (pat_section word) = Some "".
Proof.
  intros Ht. unfold sectionOf, js_match. cbn [pat_section flag global fl_is].
  unfold exec. fold (pat_section word).
  rewrite (execFrom_needs (pat_section word) "<"); [reflexivity | | reflexivity | exact Ht].
  intros a H. lookup lt_table a. cbn [pat_section flag] in H. rewrite H in T.
  now apply Ascii.eqb_eq.
Qed.

(** X18: a text without [<] has no section: skills, experience and
    recommendations are empty like the two fields that are never filled, and
    the text is kept whole in [overall]. *)
Theorem parseAnalysisResult_plain_text (t : string) :
  includes t "<" = false ->
  parseAnalysisResult t
  = {| skills := Some ""; experience := Some ""; recommendations := Some "";
       strengths := Some ""; weaknesses := Some ""; overall := t |}.
Proof.
  intros Ht. unfold parseAnalysisResult. now rewrite !sectionOf_plain.
Qed.

Lemma parseAnalysisResult_plain_text_witness :
  skills (parseAnalysisResult "Skills: good. Experience: 5 years > enough.")
  = Some "".
Proof.
  rewrite (parseAnalysisResult_plain_text
             "Skills: good. Experience: 5 years > enough."); reflexivity.
Defined.

(** X19: for a text without a percent sign the score is one of 85, 75, 65 and
    60, so its label is "Strong Match", "Good Match" or "Fair Match", never
    "Excellent Match" or "Needs Improvement", and its colour is never the
    green of the top band. *)
Theorem text_only_estimate (t : string) :
  includes t "%" = false ->
  In (extractMatchScore t) [85; 75; 65; 60]%Z
  /\ In (getScoreDescription (extractMatchScore t))
        ["Strong Match"; "Good Match"; "Fair Match"]
  /\ getScoreColor (extractMatchScore t)
     <> "from-green-500 to-emerald-600 border-green-400/50".
Proof.
  intros Ht. rewrite (extractMatchScore_no_percent t Ht).
  destruct (keywordScore_values t) as [E | [E | [E | E]]]; rewrite E;
    (split; [cbn; tauto | split; [cbn; tauto | discriminate]]).
Qed.

Lemma text_only_estimate_witness :
  In (getScoreDescription (extractMatchScore "A fair candidate with potential"))
     ["Strong Match"; "Good Match"; "Fair Match"].
Proof.
  apply (text_only_estimate "A fair candidate with potential"). reflexivity.
Defined.

(** ** Health check and submission *)

(** X20: after a health check with an ok response, a state with a file and a
    long enough description submits: the request goes out with that file
    and description, and the button is disabled only while loading. *)
Theorem healthy_check_enables_submit
    (net : FetchOutcome) (st : State) (f : File) :
  file st = Some f ->
  (20 <= String.length (trim (jobDescription st)))%nat ->
  let st' := checkApiHealth (HealthResponds true) st in
  submitDisabled st' = isLoading st
  /\ exists rest,
       snd (handleSubmit net st')
       = Fetch (API_BASE_URL ++ "/api/analyze") f (jobDescription st) :: rest.
Proof.
  intros Hf Hlen st'. split.
  - unfold submitDisabled. cbn. apply orb_false_r.
  - assert (Hv : spec_violation st' = None).
    { unfold spec_violation. cbn [st' checkApiHealth setApiStatus file
                                  jobDescription apiStatus].
      rewrite Hf.
      replace (String.length (trim (jobDescription st)) =? 0)%nat with false
        by (symmetry; apply Nat.eqb_neq; lia).
      replace (String.length (trim (jobDescription st)) <? 20)%nat with false
        by (symmetry; apply Nat.ltb_ge; lia).
      reflexivity. }
    destruct (handleSubmit_valid net st' Hv) as (g & Hg & ->).
    cbn in Hg. rewrite Hf in Hg. inversion Hg; subst g.
    cbv zeta. destruct (tryBody net); eexists; reflexivity.
Qed.

Lemma healthy_check_enables_submit_witness :
  let st := checkApiHealth HealthRejects sampleState in
  snd (handleSubmit (Rejects "x") st) = []
  /\ exists rest,
       snd (handleSubmit (Rejects "x") (checkApiHealth (HealthResponds true) st))
       = Fetch (API_BASE_URL ++ "/api/analyze")
           {| name := "cv.pdf"; type := "application/pdf"; size := 2048 |}
           (jobDescription st) :: rest.
Proof.
  intros st. split; [reflexivity |].
  apply (healthy_check_enables_submit (Rejects "x") st
           {| name := "cv.pdf"; type := "application/pdf"; size := 2048 |});
    [reflexivity | vm_compute; lia].
Defined.

(** ** Any timer that fires *)

Section BannerFiring.
Import Banner.
Local Open Scope list_scope.

(** X21: whichever timer fires, the effect's or the share button's, the banner is
    cleared whatever it shows and no effect timer is left; so the 2000 ms
    timer of a share also clears an error that was set after the share. *)
Theorem any_timer_clears_banner (es : list Event) (u u' : UI) :
  run es initial = Some u -> step Fire u = Some u' ->
  shown u' = None /\ effectTimers u' = []
  /\ (length (pending u') < length (pending u))%nat.
Proof.
  intros Hrun Hs. assert (Hok := run_ok es initial u initial_ok Hrun).
  cbn [step] in Hs.
  destruct (takeDue (now u) (pending u)) as [[x rest] |] eqn:Ht; [| discriminate].
  inversion Hs; subst u'; clear Hs.
  apply takeDue_split in Ht as (_ & l1 & l2 & Hp & ->).
  destruct (fire_ok u x l1 l2 Hok Hp) as ((_ & _ & Heff) & Hshown).
  split; [exact Hshown |]. rewrite Hshown in Heff. split; [exact Heff |].
  rewrite Hp, List.length_app. cbn [length].
  unfold Banner.setError. cbn [shown pending].
  destruct (sameValue None (shown u)); cbn [pending errorEffect truthy].
  - rewrite List.length_app. lia.
  - rewrite app_nil_r.
    assert (H := filter_length_le (fun t => negb (isEffect t)) (l1 ++ l2)).
    rewrite List.length_app in H. lia.
Qed.

Lemma any_timer_clears_banner_witness :
  run [ShareCopied; Wait 1500; SetError (Some "Only PDF files are allowed"); Wait 500]
      initial
  = Some {| now := 2000; shown := Some "Only PDF files are allowed";
            pending := [ {| owner := ByShare; set_at := 0; delay := 2000 |};
                         {| owner := ByEffect; set_at := 1500; delay := 8000 |} ] |}
  /\ shown (setError None {| now := 2000; shown := Some "Only PDF files are allowed";
                            pending := [{| owner := ByEffect; set_at := 1500;
                                           delay := 8000 |}] |}) = None.
Proof.
  split; [reflexivity |].
  apply (any_timer_clears_banner
           [ShareCopied; Wait 1500; SetError (Some "Only PDF files are allowed"); Wait 500]
           {| now := 2000; shown := Some "Only PDF files are allowed";
              pending := [ {| owner := ByShare; set_at := 0; delay := 2000 |};
                           {| owner := ByEffect; set_at := 1500; delay := 8000 |} ] |});
    reflexivity.
Defined.

End BannerFiring.

(** ** The score that is stored *)

Lemma extractMatchScore_bounds (t : string) :
  (0 <= extractMatchScore t <= 100)%Z.
Proof.
  unfold extractMatchScore.
  destruct (tryPatterns t patterns) as [v |] eqn:Hp.
  - now apply tryPatterns_some in Hp as (_ & _ & _ & _ & _ & Hr).
  - destruct (keywordScore_values t) as [E | [E | [E | E]]]; rewrite E; lia.
Qed.

(** X22: the score that a submission stores is either the non-zero number the
    server sent or lies between 0 and 100: only a server score can be out
    of range. *)
Theorem stored_score_origin (net : FetchOutcome) (st : State) (r : Results) :
  spec_violation st = None ->
  results (fst (handleSubmit net st)) = Some r ->
  (exists ok status data,
      net = Responds ok status data
      /\ d_matchScore data = Some (matchScore r) /\ matchScore r <> 0%Z)
  \/ (0 <= matchScore r <= 100)%Z.
Proof.
  intros Hv Hr. destruct (handleSubmit_valid net st Hv) as (f & _ & E).
  rewrite E in Hr. clear E. cbv zeta in Hr.
  destruct (tryBody net) as [message | r'] eqn:Hb; cbn [fst] in Hr.
  - destruct (catchBlock_fields message
                (setResults None (setError None (setIsLoading true st))))
      as (_ & _ & _ & Er & _).
    cbn [results setIsLoading] in Hr. rewrite Er in Hr. discriminate.
  - cbn in Hr. inversion Hr; subst r'. clear Hr.
    unfold tryBody in Hb. destruct net as [message | ok status data];
      [discriminate |].
    destruct (negb ok); [discriminate |].
    destruct (negb (success data)); [discriminate |].
    destruct (result data) as [text |]; [| discriminate].
    inversion Hb; subst r; clear Hb. cbn [matchScore].
    destruct (d_matchScore data) as [[| p | p] |] eqn:Es; cbn [orNumber].
    + right. apply extractMatchScore_bounds.
    + left. exists ok, status, data. repeat split; [exact Es | discriminate].
    + left. exists ok, status, data. repeat split; [exact Es | discriminate].
    + right. apply extractMatchScore_bounds.
Qed.

Lemma stored_score_origin_witness :
  (exists ok status data,
      successResponse (Some 500%Z) "Match Percentage: 78%" = Responds ok status data
      /\ d_matchScore data = Some 500%Z /\ 500%Z <> 0%Z)
  \/ (0 <= 500 <= 100)%Z.
Proof.
  apply (stored_score_origin
           (successResponse (Some 500%Z) "Match Percentage: 78%") sampleState
           {| matchScore := 500;
              analysis := parseAnalysisResult "Match Percentage: 78%";
              rawAnalysis := "Match Percentage: 78%";
              analyzedAt := None |}); reflexivity.
Defined.
